(** * LinkAPP chat server: a shallow embedding of [server.py]

    The development follows the layout of the server source: the helper
    functions ([encrypt_data], [decrypt_data], [hash_password]), the tables
    of the SQLite store, the registries [ChatServer] keeps in memory, the
    handlers called from [handle_client], and the two UDP relay loops.
    The statements checked against the specification come last, each under
    the number of its claim (C1 to C10).

    How Python is read:

    - A [str] is a list of code points ([pystr]); [bytes] is a list of
      numbers below 256.  A variable that may be [None] is an [option].
    - A [dict] is an insertion-ordered association list ([PyDict]).
    - A raised exception is the [Raise] case of [result]; a handler leaves an
      [outcome]: the server, the packets it handed to [send_json] (which
      swallows every sending error itself), and the exception it raised.
    - A request is a JSON object whose fields are strings; a field that is
      missing, [null] or empty fails the tests [if not x].  Numbers, nested
      values and lone surrogates in requests are outside the model.
    - [time.time()] is an integer clock value given with each request; only
      the order of time stamps is ever used.
    - The store is three lists of rows in insertion order.  The [id] column
      of [messages] is left out: no statement reads it.
    - [json.dumps], [json.loads] and [hashlib.sha256] are not code of the
      repository and are taken through the interface [PyLib]; [base64] and
      the UTF-8 codec are written out.
    - The server runs one turn of one loop at a time ([step]); the lock
      [db_lock] and the interleaving of threads inside a handler are not
      modelled.  [print] calls are omitted. *)

From Stdlib Require Import NArith Ascii String Lia ZifyBool ZifyN.
From stdpp Require Import list numbers strings sorting gmap.

Set Warnings "-register-all".

Local Open Scope N_scope.

(** ** Python strings and bytes *)

Abbreviation pystr := (list N).
Abbreviation bytes := (list N).

Fixpoint str (s : string) : pystr :=
  match s with
  | EmptyString => []
  | String a r => N_of_ascii a :: str r
  end.

Inductive exn := ValueError | IntegrityError | JSONDecodeError | AttributeError.

Inductive result (A : Type) :=
| Ok (a : A)
| Raise (e : exn).
Arguments Ok {A} a.
Arguments Raise {A} e.

Definition rbind {A B} (m : result A) (k : A -> result B) : result B :=
  match m with
  | Ok a => k a
  | Raise e => Raise e
  end.

(** [not x] for a value that is a string or [None]. *)
Definition falsy (x : option pystr) : bool :=
  match x with
  | None | Some [] => true
  | Some (_ :: _) => false
  end.

(** [x or d] for the same kind of value. *)
Definition py_or (x : option pystr) (d : pystr) : pystr :=
  match x with
  | Some (c :: s) => c :: s
  | _ => d
  end.

(** [bytes(l)] for a list of integers: every item must be in [range(0, 256)]. *)
Definition py_bytes (l : list N) : result bytes :=
  if forallb (fun b => b <? 256) l then Ok l else Raise ValueError.

(** ** base64 (RFC 4648, the standard alphabet with [=] padding) *)

Module Base64.

Definition pad : N := 61.

Definition char_of (n : N) : N :=
  if n <? 26 then 65 + n
  else if n <? 52 then 71 + n
  else if n <? 62 then n - 4
  else if n =? 62 then 43
  else 47.

Definition val_of (c : N) : option N :=
  if (65 <=? c) && (c <=? 90) then Some (c - 65)
  else if (97 <=? c) && (c <=? 122) then Some (c - 71)
  else if (48 <=? c) && (c <=? 57) then Some (c + 4)
  else if c =? 43 then Some 62
  else if c =? 47 then Some 63
  else None.

Fixpoint b64encode (bs : bytes) : pystr :=
  match bs with
  | [] => []
  | [a] => [char_of (a / 4); char_of ((a mod 4) * 16); pad; pad]
  | [a; b] =>
      [char_of (a / 4); char_of ((a mod 4) * 16 + b / 16);
       char_of ((b mod 16) * 4); pad]
  | a :: b :: c :: rest =>
      char_of (a / 4) :: char_of ((a mod 4) * 16 + b / 16)
      :: char_of ((b mod 16) * 4 + c / 64) :: char_of (c mod 64)
      :: b64encode rest
  end.

(** Decoding of canonical text.  [None] stands for [binascii.Error]; the
    library is more lenient on text that no encoder produces (it skips
    foreign characters), which plays no role below. *)
Fixpoint b64decode (cs : pystr) : option bytes :=
  match cs with
  | [] => Some []
  | c0 :: c1 :: c2 :: c3 :: rest =>
      match val_of c0, val_of c1 with
      | Some v0, Some v1 =>
          let b0 := v0 * 4 + v1 / 16 in
          if (c2 =? pad) && (c3 =? pad) then
            match rest with [] => Some [b0] | _ => None end
          else
            match val_of c2 with
            | Some v2 =>
                let b1 := (v1 mod 16) * 16 + v2 / 4 in
                if c3 =? pad then
                  match rest with [] => Some [b0; b1] | _ => None end
                else
                  match val_of c3, b64decode rest with
                  | Some v3, Some r => Some (b0 :: b1 :: (v2 mod 4) * 64 + v3 :: r)
                  | _, _ => None
                  end
            | None => None
            end
      | _, _ => None
      end
  | _ => None
  end.

End Base64.

(** ** [encrypt_data] and [decrypt_data] *)

Definition ENCRYPTION_KEY : pystr := str "SecureKey2024".

(** [ord(ENCRYPTION_KEY[i % len(ENCRYPTION_KEY)])] *)
Definition key_at (i : nat) : N :=
  nth (i mod length ENCRYPTION_KEY)%nat ENCRYPTION_KEY 0.

Definition xor_key (i : nat) (c : N) : N := N.lxor c (key_at i).

Definition encrypt_data (text : pystr) : result (option pystr) :=
  if falsy (Some text) then Ok None
  else
    rbind (py_bytes (imap xor_key text))
          (fun r => Ok (Some (Base64.b64encode r))).

(** The body of [decrypt_data] is wrapped in [try: ... except: return "[Error]"]. *)
Definition decrypt_data (encrypted : option pystr) : option pystr :=
  if falsy encrypted then None
  else
    match Base64.b64decode (py_or encrypted []) with
    | Some data => Some (imap xor_key data)
    | None => Some (str "[Error]")
    end.

Definition is_bytes (bs : list N) : Prop := Forall (fun b => b < 256) bs.

(** [xor_fits s]: every character of [s], XORed with its key byte, is a byte. *)
Definition xor_fits (s : pystr) : Prop :=
  forall i c, s !! i = Some c -> xor_key i c < 256.

Definition is_ascii (s : pystr) : Prop := Forall (fun c => c < 128) s.

(** What [decrypt_data(encrypt_data(s))] evaluates to. *)
Definition encrypt_then_decrypt (s : pystr) : result (option pystr) :=
  rbind (encrypt_data s) (fun e => Ok (decrypt_data e)).

(** ** UTF-8, the codec of [str.encode()] and [bytes.decode()] (RFC 3629) *)

Module Utf8.

(** Unicode scalar values: the code points a Python string can encode. *)
Definition is_scalar (c : N) : Prop :=
  c < 0xD800 \/ (0xE000 <= c /\ c < 0x110000).

Definition encode_char (c : N) : bytes :=
  if c <? 0x80 then [c]
  else if c <? 0x800 then [0xC0 + c / 64; 0x80 + c mod 64]
  else if c <? 0x10000 then
    [0xE0 + c / 4096; 0x80 + (c / 64) mod 64; 0x80 + c mod 64]
  else
    [0xF0 + c / 262144; 0x80 + (c / 4096) mod 64;
     0x80 + (c / 64) mod 64; 0x80 + c mod 64].

Definition encode (s : pystr) : bytes := flat_map encode_char s.

Definition is_cont (b : N) : bool := (0x80 <=? b) && (b <? 0xC0).

(** Strict decoding: overlong forms, surrogates, values above U+10FFFF and
    truncated sequences are errors ([None] stands for [UnicodeDecodeError]). *)
Fixpoint decode (bs : bytes) : option pystr :=
  match bs with
  | [] => Some []
  | b0 :: r0 =>
      if b0 <? 0x80 then
        match decode r0 with Some s => Some (b0 :: s) | None => None end
      else if b0 <? 0xC2 then None
      else if b0 <? 0xE0 then
        match r0 with
        | b1 :: r1 =>
            if is_cont b1 then
              match decode r1 with
              | Some s => Some ((b0 - 0xC0) * 64 + (b1 - 0x80) :: s)
              | None => None
              end
            else None
        | _ => None
        end
      else if b0 <? 0xF0 then
        match r0 with
        | b1 :: b2 :: r2 =>
            let c := (b0 - 0xE0) * 4096 + (b1 - 0x80) * 64 + (b2 - 0x80) in
            if is_cont b1 && is_cont b2 && (0x800 <=? c)
               && negb ((0xD800 <=? c) && (c <? 0xE000)) then
              match decode r2 with Some s => Some (c :: s) | None => None end
            else None
        | _ => None
        end
      else if b0 <? 0xF5 then
        match r0 with
        | b1 :: b2 :: b3 :: r3 =>
            let c := (b0 - 0xF0) * 262144 + (b1 - 0x80) * 4096
                     + (b2 - 0x80) * 64 + (b3 - 0x80) in
            if is_cont b1 && is_cont b2 && is_cont b3
               && (0x10000 <=? c) && (c <? 0x110000) then
              match decode r3 with Some s => Some (c :: s) | None => None end
            else None
        | _ => None
        end
      else None
  end.

End Utf8.

Definition is_text (s : pystr) : Prop := Forall Utf8.is_scalar s.

(** ** Dictionaries

    A Python [dict] keeps its keys in insertion order; assigning to an
    existing key keeps the key's position. *)

Module PyDict.
Section dict.
Context {V : Type}.

(** [d.get(k)] *)
Fixpoint get (k : pystr) (d : list (pystr * V)) : option V :=
  match d with
  | [] => None
  | (k', v) :: r => if decide (k = k') then Some v else get k r
  end.

(** [d[k] = v] *)
Fixpoint set (k : pystr) (v : V) (d : list (pystr * V)) : list (pystr * V) :=
  match d with
  | [] => [(k, v)]
  | (k', v') :: r =>
      if decide (k = k') then (k', v) :: r else (k', v') :: set k v r
  end.

(** [del d[k]] *)
Fixpoint del (k : pystr) (d : list (pystr * V)) : list (pystr * V) :=
  match d with
  | [] => []
  | (k', v') :: r => if decide (k = k') then r else (k', v') :: del k r
  end.

(** [k in d] *)
Definition mem (k : pystr) (d : list (pystr * V)) : bool :=
  match get k d with Some _ => true | None => false end.

Definition keys (d : list (pystr * V)) : list pystr := map fst d.
Definition values (d : list (pystr * V)) : list V := map snd d.
End dict.
End PyDict.

(** ** JSON values sent to clients *)

Inductive json :=
| JNull
| JBool (b : bool)
| JNum (n : Z)
| JStr (s : pystr)
| JList (items : list json)
| JObj (fields : list (pystr * json)).

(** A variable that holds a string or [None]. *)
Definition jopt (x : option pystr) : json :=
  match x with Some s => JStr s | None => JNull end.

(** [f"{x}"] for such a variable. *)
Definition fmt (x : option pystr) : pystr :=
  match x with Some s => s | None => str "None" end.

(** The value of [x] after a test [if not x: return] has let it through. *)
Definition nonempty (x : option pystr) : option pystr :=
  if falsy x then None else x.

Abbreviation sock := nat.
Abbreviation addr := (pystr * N)%type.
Abbreviation packet := (sock * json)%type.
Abbreviation datagram := (bytes * addr)%type.

(** A request is a JSON object; the model covers objects whose fields are
    strings of code points (a missing field reads as [None]). *)
Abbreviation request := (list (pystr * pystr)).

Definition field (msg : request) (k : string) : option pystr :=
  PyDict.get (str k) msg.

Definition system_text (content : pystr) : json :=
  JObj [(str "type", JStr (str "text")); (str "from", JStr (str "SYSTEM"));
        (str "content", JStr content)].

Definition auth_result (success : bool) (message : string) : json :=
  JObj [(str "type", JStr (str "auth_result")); (str "success", JBool success);
        (str "message", JStr (str message))].

(** ** The SQLite store *)

Record user_row := {
  u_username : pystr;
  u_password_hash : pystr }.

Record message_row := {
  m_sender : pystr;
  m_receiver : pystr;
  m_content : pystr;
  m_msg_type : pystr;
  m_timestamp : Z }.

Record group_row := {
  g_name : pystr;
  g_pin_hash : pystr;
  g_creator : pystr;
  g_members : pystr;
  g_created_at : Z }.

(** ** [ChatServer] *)

Record Server := {
  db_users : list user_row;
  db_messages : list message_row;
  db_groups : list group_row;
  clients : list (pystr * sock);
  udp_audio_clients : list (pystr * addr);
  udp_video_clients : list (pystr * addr);
  group_calls : list (pystr * list (option pystr)) }.

Definition with_users (s : Server) (x : list user_row) : Server :=
  {| db_users := x; db_messages := db_messages s; db_groups := db_groups s;
     clients := clients s; udp_audio_clients := udp_audio_clients s;
     udp_video_clients := udp_video_clients s; group_calls := group_calls s |}.

Definition with_messages (s : Server) (x : list message_row) : Server :=
  {| db_users := db_users s; db_messages := x; db_groups := db_groups s;
     clients := clients s; udp_audio_clients := udp_audio_clients s;
     udp_video_clients := udp_video_clients s; group_calls := group_calls s |}.

Definition with_groups (s : Server) (x : list group_row) : Server :=
  {| db_users := db_users s; db_messages := db_messages s; db_groups := x;
     clients := clients s; udp_audio_clients := udp_audio_clients s;
     udp_video_clients := udp_video_clients s; group_calls := group_calls s |}.

Definition with_clients (s : Server) (x : list (pystr * sock)) : Server :=
  {| db_users := db_users s; db_messages := db_messages s; db_groups := db_groups s;
     clients := x; udp_audio_clients := udp_audio_clients s;
     udp_video_clients := udp_video_clients s; group_calls := group_calls s |}.

Definition with_udp_audio_clients (s : Server) (x : list (pystr * addr)) : Server :=
  {| db_users := db_users s; db_messages := db_messages s; db_groups := db_groups s;
     clients := clients s; udp_audio_clients := x;
     udp_video_clients := udp_video_clients s; group_calls := group_calls s |}.

Definition with_udp_video_clients (s : Server) (x : list (pystr * addr)) : Server :=
  {| db_users := db_users s; db_messages := db_messages s; db_groups := db_groups s;
     clients := clients s; udp_audio_clients := udp_audio_clients s;
     udp_video_clients := x; group_calls := group_calls s |}.

Definition with_group_calls (s : Server) (x : list (pystr * list (option pystr))) : Server :=
  {| db_users := db_users s; db_messages := db_messages s; db_groups := db_groups s;
     clients := clients s; udp_audio_clients := udp_audio_clients s;
     udp_video_clients := udp_video_clients s; group_calls := x |}.

(** What a handler leaves behind: the server, the packets it passed to
    [send_json], and the exception it raised, if any. *)
Record outcome := {
  st : Server;
  sent : list packet;
  raised : option exn }.

Definition returns (s : Server) (out : list packet) : outcome :=
  {| st := s; sent := out; raised := None |}.

Definition raises (s : Server) (out : list packet) (e : exn) : outcome :=
  {| st := s; sent := out; raised := Some e |}.

(** *** Statements on the store *)

(** [SELECT ... FROM users WHERE username=?] *)
Definition find_user (s : Server) (username : pystr) : option user_row :=
  find (fun r => bool_decide (u_username r = username)) (db_users s).

(** [INSERT INTO users VALUES (?, ?)]; [username] is the primary key. *)
Definition insert_user (s : Server) (username pwd_hash : pystr) : result Server :=
  match find_user s username with
  | Some _ => Raise IntegrityError
  | None =>
      Ok (with_users s (db_users s ++
            [{| u_username := username; u_password_hash := pwd_hash |}]))
  end.

(** [SELECT ... FROM groups WHERE name=?] *)
Definition find_group (s : Server) (name : pystr) : option group_row :=
  find (fun r => bool_decide (g_name r = name)) (db_groups s).

(** [INSERT INTO groups VALUES (?, ?, ?, ?, ?)]: [name] is the primary key,
    the other columns are [NOT NULL]. *)
Definition insert_group (s : Server) (name pin_hash : pystr)
    (creator members : option pystr) (now : Z) : result Server :=
  match find_group s name, creator, members with
  | None, Some creator, Some members =>
      Ok (with_groups s (db_groups s ++
            [{| g_name := name; g_pin_hash := pin_hash; g_creator := creator;
                g_members := members; g_created_at := now |}]))
  | _, _, _ => Raise IntegrityError
  end.

Definition set_members (name members : pystr) (r : group_row) : group_row :=
  if bool_decide (g_name r = name) then
    {| g_name := g_name r; g_pin_hash := g_pin_hash r; g_creator := g_creator r;
       g_members := members; g_created_at := g_created_at r |}
  else r.

(** [UPDATE groups SET members=? WHERE name=?] *)
Definition update_group_members (s : Server) (name : pystr)
    (members : option pystr) : result Server :=
  match members with
  | Some members => Ok (with_groups s (map (set_members name members) (db_groups s)))
  | None => Raise IntegrityError
  end.

(** [INSERT INTO messages (sender, receiver, content, msg_type, timestamp)];
    every column is [NOT NULL]. *)
Definition insert_message (s : Server) (sender : option pystr) (receiver : pystr)
    (content : option pystr) (msg_type : pystr) (now : Z) : result Server :=
  match sender, content with
  | Some sender, Some content =>
      Ok (with_messages s (db_messages s ++
            [{| m_sender := sender; m_receiver := receiver; m_content := content;
                m_msg_type := msg_type; m_timestamp := now |}]))
  | _, _ => Raise IntegrityError
  end.

Definition timestamp_le (r1 r2 : message_row) : Prop :=
  (m_timestamp r1 <= m_timestamp r2)%Z.

Global Instance timestamp_le_dec : RelDecision timestamp_le.
Proof. intros r1 r2. unfold timestamp_le. apply _. Defined.

Definition between (username partner : pystr) (r : message_row) : bool :=
  bool_decide (m_sender r = username) && bool_decide (m_receiver r = partner)
  || bool_decide (m_sender r = partner) && bool_decide (m_receiver r = username).

(** [SELECT sender, content, msg_type FROM messages
     WHERE (sender=? AND receiver=?) OR (sender=? AND receiver=?)
     ORDER BY timestamp ASC LIMIT 50].
    A [NULL] parameter equals no column value.  SQLite leaves the order of
    rows with equal timestamps open; the model sorts by merging. *)
Definition select_history (s : Server) (username : option pystr) (partner : pystr)
    : list message_row :=
  match username with
  | Some username =>
      take 50 (merge_sort timestamp_le
                 (List.filter (between username partner) (db_messages s)))
  | None => []
  end.

(** ** Library functions the server calls

    [hashlib.sha256(...).hexdigest()], [json.dumps] and [json.loads] are not
    code of the repository.  The server only applies them to lists whose
    items are user names or [None]; it relies on [loads] undoing [dumps]
    and on [dumps] producing non-empty ASCII text ([ensure_ascii] is on by
    default), which is how the library treats strings of Unicode scalar
    values.  [json_loads] answers [None] where the library raises or the
    text is no list of strings and [null]s. *)

Class PyLib := {
  sha256_hexdigest : bytes -> pystr;
  json_dumps : list (option pystr) -> pystr;
  json_loads : pystr -> option (list (option pystr));
  json_loads_dumps : forall l, json_loads (json_dumps l) = Some l;
  json_dumps_ascii : forall l, is_ascii (json_dumps l);
  json_dumps_nonempty : forall l, json_dumps l <> [] }.

Section handlers.
Context `{PyLib}.

Definition hash_password (password : pystr) : pystr :=
  sha256_hexdigest (Utf8.encode password).

(** [json.loads(decrypt_data(x) or '[]')] *)
Definition load_members (encrypted_members : pystr) : result (list (option pystr)) :=
  match json_loads (py_or (decrypt_data (Some encrypted_members)) (str "[]")) with
  | Some members => Ok members
  | None => Raise JSONDecodeError
  end.

(** [encrypt_data(json.dumps(members))] *)
Definition dump_members (members : list (option pystr)) : result (option pystr) :=
  encrypt_data (json_dumps members).

(** *** Helpers of [ChatServer] *)

Definition is_group_member (s : Server) (username : option pystr) (group_name : pystr)
    : result bool :=
  match find_group s group_name with
  | Some row =>
      rbind (load_members (g_members row))
            (fun members => Ok (bool_decide (username ∈ members)))
  | None => Ok false
  end.

(** The loop of [broadcast_to_group]. *)
Definition group_sends (s : Server) (members : list (option pystr)) (message : json)
    (exclude : option pystr) : list packet :=
  omap (fun member : option pystr =>
          if bool_decide (member <> exclude) then
            match member with
            | Some m =>
                match PyDict.get m (clients s) with
                | Some c => Some (c, message)
                | None => None
                end
            | None => None
            end
          else None) members.

Definition broadcast_to_group (s : Server) (group_name : pystr) (message : json)
    (exclude : option pystr) : result (list packet) :=
  match find_group s group_name with
  | None => Ok []
  | Some row =>
      rbind (load_members (g_members row))
            (fun members => Ok (group_sends s members message exclude))
  end.

Definition broadcast_user_list (s : Server) : list packet :=
  let all_users := map u_username (db_users s) in
  let user_list :=
    map (fun u =>
           JObj [(str "username", JStr u);
                 (str "status",
                  JStr (if PyDict.mem u (clients s) then str "online" else str "offline"))])
        all_users in
  let payload := JObj [(str "type", JStr (str "list")); (str "users", JList user_list)] in
  map (fun client => (client, payload)) (PyDict.values (clients s)).

Fixpoint my_groups (username : option pystr) (all_groups : list group_row)
    : result (list json) :=
  match all_groups with
  | [] => Ok []
  | row :: rest =>
      rbind (load_members (g_members row)) (fun members =>
      rbind (my_groups username rest) (fun tl =>
      Ok (if bool_decide (username ∈ members) then
            JObj [(str "name", JStr (g_name row)); (str "creator", JStr (g_creator row))] :: tl
          else tl)))
  end.

Definition all_groups_list (s : Server) : json :=
  JObj [(str "type", JStr (str "all_groups_list"));
        (str "groups", JList (map (fun row => JStr (g_name row)) (db_groups s)))].

Definition my_groups_list (groups : list json) : json :=
  JObj [(str "type", JStr (str "my_groups_list")); (str "groups", JList groups)].

Definition send_groups_list (s : Server) (conn : sock) (username : option pystr)
    : result (list packet) :=
  rbind (my_groups username (db_groups s)) (fun mine =>
  Ok [(conn, all_groups_list s); (conn, my_groups_list mine)]).

Definition broadcast_groups_update (s : Server) : list packet :=
  map (fun client => (client, all_groups_list s)) (PyDict.values (clients s)).

(** *** Authentication *)

(** The [INSERT] can only raise [IntegrityError]; the branch
    [except Exception as e] that answers [str(e)] is never taken. *)
Definition handle_signup (s : Server) (conn : sock) (msg : request) : outcome :=
  match nonempty (field msg "username"), nonempty (field msg "password") with
  | Some username, Some password =>
      let pwd_hash := hash_password password in
      match insert_user s username pwd_hash with
      | Ok s' => returns s' [(conn, auth_result true "Account created")]
      | Raise _ => returns s [(conn, auth_result false "Username exists")]
      end
  | _, _ => returns s [(conn, auth_result false "Invalid credentials")]
  end.

(** [handle_login] changes nothing; it answers and returns the user name or [None]. *)
Definition handle_login (s : Server) (conn : sock) (msg : request)
    : option pystr * list packet :=
  match nonempty (field msg "username"), nonempty (field msg "password") with
  | Some username, Some password =>
      match find_user s username with
      | Some row =>
          if bool_decide (u_password_hash row = hash_password password) then
            if PyDict.mem username (clients s) then
              (None, [(conn, auth_result false "Already logged in")])
            else
              (Some username, [(conn, auth_result true "Login successful")])
          else (None, [(conn, auth_result false "Invalid credentials")])
      | None => (None, [(conn, auth_result false "Invalid credentials")])
      end
  | _, _ => (None, [(conn, auth_result false "Invalid credentials")])
  end.

(** *** Messaging *)

Definition live (s : Server) (receiver : pystr) (message : json) : list packet :=
  match PyDict.get receiver (clients s) with
  | Some c => [(c, message)]
  | None => []
  end.

Definition handle_private_message (s : Server) (conn : sock) (sender : option pystr)
    (msg : request) (now : Z) : outcome :=
  match nonempty (field msg "to"), nonempty (field msg "content") with
  | Some receiver, Some content =>
      match encrypt_data content with
      | Raise e => raises s [] e
      | Ok encrypted_content =>
          match insert_message s sender receiver encrypted_content (str "text") now with
          | Raise e => raises s [] e
          | Ok s' =>
              returns s' (live s' receiver
                (JObj [(str "type", JStr (str "private")); (str "from", jopt sender);
                       (str "content", JStr content)]))
          end
      end
  | _, _ => returns s []
  end.

Definition handle_file_transfer (s : Server) (conn : sock) (sender : option pystr)
    (msg : request) (now : Z) : outcome :=
  match nonempty (field msg "to"), nonempty (field msg "filename"),
        nonempty (field msg "content") with
  | Some receiver, Some filename, Some content =>
      match encrypt_data (str "FILE:" ++ filename) with
      | Raise e => raises s [] e
      | Ok encrypted_meta =>
          match insert_message s sender receiver encrypted_meta (str "file") now with
          | Raise e => raises s [] e
          | Ok s' =>
              returns s' (live s' receiver
                (JObj [(str "type", JStr (str "file")); (str "from", jopt sender);
                       (str "filename", JStr filename); (str "content", JStr content)]))
          end
      end
  | _, _, _ => returns s []
  end.

Definition history_entry (r : message_row) : json :=
  JObj [(str "sender", JStr (m_sender r));
        (str "content", jopt (decrypt_data (Some (m_content r))));
        (str "type", JStr (m_msg_type r))].

Definition send_message_history (s : Server) (conn : sock) (username : option pystr)
    (partner : option pystr) : outcome :=
  match nonempty partner with
  | None => returns s []
  | Some partner =>
      let rows := select_history s username partner in
      let history := map history_entry rows in
      returns s [(conn, JObj [(str "type", JStr (str "history"));
                              (str "with", JStr partner);
                              (str "data", JList history)])]
  end.

(** [msg['from'] = sender], then the whole request is sent on. *)
Definition relay_call_signal (s : Server) (sender : option pystr) (msg : request)
    : outcome :=
  match nonempty (field msg "to") with
  | Some receiver =>
      returns s (live s receiver
        (JObj (PyDict.set (str "from") (jopt sender)
                 (map (fun kv : pystr * pystr => (kv.1, JStr kv.2)) msg))))
  | None => returns s []
  end.

(** *** Groups *)

Definition group_msg (group_name : pystr) (from : option pystr) (content : pystr) : json :=
  JObj [(str "type", JStr (str "group_msg")); (str "room_name", JStr group_name);
        (str "from", jopt from); (str "content", JStr content)].

Definition handle_group_create (s : Server) (conn : sock) (creator : option pystr)
    (msg : request) (now : Z) : outcome :=
  match nonempty (field msg "room_name"), nonempty (field msg "pin") with
  | Some group_name, Some pin =>
      let pin_hash := hash_password pin in
      match dump_members [creator] with
      | Raise e => raises s [] e
      | Ok members_encrypted =>
          match insert_group s group_name pin_hash creator members_encrypted now with
          | Raise _ => returns s [(conn, system_text (str "Group already exists"))]
          | Ok s' =>
              let out :=
                (conn, system_text (str "Group '" ++ group_name ++ str "' created"))
                :: broadcast_groups_update s' in
              match send_groups_list s' conn creator with
              | Ok l => returns s' (out ++ l)
              | Raise e => raises s' out e
              end
          end
      end
  | _, _ => returns s [(conn, system_text (str "Invalid group data"))]
  end.

Definition handle_group_add_user (s : Server) (conn : sock) (sender : option pystr)
    (msg : request) : outcome :=
  match nonempty (field msg "room_name"), nonempty (field msg "target_user") with
  | Some group_name, Some target_user =>
      match find_group s group_name with
      | None => returns s [(conn, system_text (str "Group not found"))]
      | Some row =>
          if bool_decide (Some (g_creator row) <> sender) then
            returns s [(conn, system_text (str "Only creator can add users"))]
          else
            match find_user s target_user with
            | None => returns s [(conn, system_text (str "User not found"))]
            | Some _ =>
                match load_members (g_members row) with
                | Raise e => raises s [] e
                | Ok members =>
                    if bool_decide (Some target_user ∈ members) then
                      returns s [(conn, system_text (str "User already in group"))]
                    else
                      match rbind (dump_members (members ++ [Some target_user]))
                                  (update_group_members s group_name) with
                      | Raise e => raises s [] e
                      | Ok s' =>
                          let out1 :=
                            [(conn, system_text
                                      (str "Added " ++ target_user ++ str " to " ++ group_name))] in
                          match
                            match PyDict.get target_user (clients s') with
                            | Some c =>
                                rbind (send_groups_list s' c (Some target_user)) (fun l =>
                                Ok (l ++ [(c, system_text
                                                (str "You were added to '" ++ group_name ++ str "'"))]))
                            | None => Ok []
                            end
                          with
                          | Raise e => raises s' out1 e
                          | Ok out2 =>
                              match broadcast_to_group s' group_name
                                      (group_msg group_name (Some (str "SYSTEM"))
                                         (target_user ++ str " added by creator")) None with
                              | Raise e => raises s' (out1 ++ out2) e
                              | Ok out3 => returns s' (out1 ++ out2 ++ out3)
                              end
                          end
                      end
                end
            end
      end
  | _, _ => returns s []
  end.

Definition handle_group_join (s : Server) (conn : sock) (username : option pystr)
    (msg : request) : outcome :=
  match nonempty (field msg "room_name"), nonempty (field msg "pin") with
  | Some group_name, Some pin =>
      match find_group s group_name with
      | None => returns s [(conn, system_text (str "Group not found"))]
      | Some row =>
          if bool_decide (hash_password pin <> g_pin_hash row) then
            returns s [(conn, system_text (str "Incorrect PIN"))]
          else
            match load_members (g_members row) with
            | Raise e => raises s [] e
            | Ok members =>
                if bool_decide (username ∈ members) then
                  returns s [(conn, system_text (str "Already in group"))]
                else
                  match rbind (dump_members (members ++ [username]))
                              (update_group_members s group_name) with
                  | Raise e => raises s [] e
                  | Ok s' =>
                      let out1 :=
                        [(conn, system_text (str "Joined '" ++ group_name ++ str "'"))] in
                      match send_groups_list s' conn username with
                      | Raise e => raises s' out1 e
                      | Ok out2 =>
                          match broadcast_to_group s' group_name
                                  (group_msg group_name (Some (str "SYSTEM"))
                                     (fmt username ++ str " joined")) None with
                          | Raise e => raises s' (out1 ++ out2) e
                          | Ok out3 => returns s' (out1 ++ out2 ++ out3)
                          end
                      end
                  end
            end
      end
  | _, _ => returns s []
  end.

(** [members.remove(x)]: the first occurrence goes. *)
Fixpoint list_remove_first (x : option pystr) (l : list (option pystr))
    : list (option pystr) :=
  match l with
  | [] => []
  | y :: r => if decide (x = y) then r else y :: list_remove_first x r
  end.

Definition handle_group_leave (s : Server) (conn : sock) (username : option pystr)
    (msg : request) : outcome :=
  match nonempty (field msg "room_name") with
  | Some group_name =>
      match find_group s group_name with
      | None => returns s []
      | Some row =>
          match load_members (g_members row) with
          | Raise e => raises s [] e
          | Ok members =>
              if bool_decide (username ∈ members) then
                match rbind (dump_members (list_remove_first username members))
                            (update_group_members s group_name) with
                | Raise e => raises s [] e
                | Ok s' =>
                    let out1 :=
                      [(conn, system_text (str "Left '" ++ group_name ++ str "'"))] in
                    match send_groups_list s' conn username with
                    | Raise e => raises s' out1 e
                    | Ok out2 =>
                        match broadcast_to_group s' group_name
                                (group_msg group_name (Some (str "SYSTEM"))
                                   (fmt username ++ str " left")) None with
                        | Raise e => raises s' (out1 ++ out2) e
                        | Ok out3 => returns s' (out1 ++ out2 ++ out3)
                        end
                    end
                end
              else returns s []
          end
      end
  | None => returns s []
  end.

(** The shape shared by the group handlers that only forward:
    [if self.is_group_member(sender, group_name):
         self.broadcast_to_group(group_name, {...}, exclude=sender)]. *)
Definition forward_to_group (s : Server) (sender : option pystr) (group_name : pystr)
    (message : json) : outcome :=
  match is_group_member s sender group_name with
  | Raise e => raises s [] e
  | Ok false => returns s []
  | Ok true =>
      match broadcast_to_group s group_name message sender with
      | Raise e => raises s [] e
      | Ok out => returns s out
      end
  end.

Definition handle_group_message (s : Server) (conn : sock) (sender : option pystr)
    (msg : request) : outcome :=
  match nonempty (field msg "room_name"), nonempty (field msg "content") with
  | Some group_name, Some content =>
      forward_to_group s sender group_name (group_msg group_name sender content)
  | _, _ => returns s []
  end.

Definition handle_group_file (s : Server) (conn : sock) (sender : option pystr)
    (msg : request) : outcome :=
  match nonempty (field msg "room_name"), nonempty (field msg "filename"),
        nonempty (field msg "content") with
  | Some group_name, Some filename, Some content =>
      forward_to_group s sender group_name
        (JObj [(str "type", JStr (str "group_file")); (str "room_name", JStr group_name);
               (str "from", jopt sender); (str "filename", JStr filename);
               (str "content", JStr content)])
  | _, _, _ => returns s []
  end.

Definition handle_group_call (s : Server) (conn : sock) (sender : option pystr)
    (msg : request) : outcome :=
  match nonempty (field msg "room_name") with
  | Some group_name =>
      forward_to_group s sender group_name
        (JObj [(str "type", JStr (str "group_call")); (str "room_name", JStr group_name);
               (str "from", jopt sender);
               (str "mode", JStr (default (str "audio") (field msg "mode")))])
  | None => returns s []
  end.

Definition group_call_accept (group_name : pystr) (username : option pystr) : json :=
  JObj [(str "type", JStr (str "group_call_accept")); (str "room_name", JStr group_name);
        (str "from", jopt username)].

(** The two updates of [self.group_calls] in [handle_group_call_accept]. *)
Definition accept_into (group_name : pystr) (username : option pystr)
    (calls : list (pystr * list (option pystr))) : list (pystr * list (option pystr)) :=
  let calls1 :=
    if PyDict.mem group_name calls then calls else PyDict.set group_name [] calls in
  let roster :=
    match PyDict.get group_name calls1 with Some r => r | None => [] end in
  if bool_decide (username ∈ roster) then calls1
  else PyDict.set group_name (roster ++ [username]) calls1.

Definition handle_group_call_accept (s : Server) (conn : sock) (username : option pystr)
    (msg : request) : outcome :=
  match nonempty (field msg "room_name") with
  | Some group_name =>
      let s' := with_group_calls s (accept_into group_name username (group_calls s)) in
      match broadcast_to_group s' group_name (group_call_accept group_name username) None with
      | Raise e => raises s' [] e
      | Ok out => returns s' out
      end
  | None => returns s []
  end.

Definition handle_group_voice (s : Server) (conn : sock) (sender : option pystr)
    (msg : request) : outcome :=
  match nonempty (field msg "room_name"), nonempty (field msg "content") with
  | Some group_name, Some content =>
      forward_to_group s sender group_name
        (JObj [(str "type", JStr (str "group_voice_msg")); (str "room_name", JStr group_name);
               (str "from", jopt sender); (str "content", JStr content);
               (str "duration",
                match field msg "duration" with Some d => JStr d | None => JNum 0 end)])
  | _, _ => returns s []
  end.

(** *** [handle_client]: one turn of the loop *)

Definition is_type (msg : request) (t : string) : bool :=
  bool_decide (field msg "type" = Some (str t)).

(** The body of the [while] loop for a request [msg] that passed
    [if not msg: break].  The first component is the value of the local
    variable [username] afterwards.  [handle_voice_message] is called but
    defined nowhere in the class, so that branch raises. *)
Definition dispatch (s : Server) (conn : sock) (username : option pystr)
    (msg : request) (now : Z) : option pystr * outcome :=
  if is_type msg "signup" then (username, handle_signup s conn msg)
  else if is_type msg "login" then
    let '(username', out1) := handle_login s conn msg in
    match nonempty username' with
    | Some u =>
        let s' := with_clients s (PyDict.set u conn (clients s)) in
        let out2 := broadcast_user_list s' in
        match send_groups_list s' conn username' with
        | Ok out3 => (username', returns s' (out1 ++ out2 ++ out3))
        | Raise e => (username', raises s' (out1 ++ out2) e)
        end
    | None => (username', returns s out1)
    end
  else if is_type msg "private" then
    (username, handle_private_message s conn username msg now)
  else if is_type msg "file" then
    (username, handle_file_transfer s conn username msg now)
  else if is_type msg "voice_msg" then
    (username, raises s [] AttributeError)
  else if is_type msg "req_history" then
    (username, send_message_history s conn username (field msg "with"))
  else if is_type msg "call" || is_type msg "call_accept" || is_type msg "call_reject" then
    (username, relay_call_signal s username msg)
  else if is_type msg "group_create" then
    (username, handle_group_create s conn username msg now)
  else if is_type msg "group_join" then
    (username, handle_group_join s conn username msg)
  else if is_type msg "group_leave" then
    (username, handle_group_leave s conn username msg)
  else if is_type msg "group_msg" then
    (username, handle_group_message s conn username msg)
  else if is_type msg "group_file" then
    (username, handle_group_file s conn username msg)
  else if is_type msg "group_call" then
    (username, handle_group_call s conn username msg)
  else if is_type msg "group_call_accept" then
    (username, handle_group_call_accept s conn username msg)
  else if is_type msg "group_voice_msg" then
    (username, handle_group_voice s conn username msg)
  else if is_type msg "group_add_user" then
    (username, handle_group_add_user s conn username msg)
  else (username, returns s []).

(** The [finally] block of [handle_client]. *)
Definition disconnect (s : Server) (username : option pystr) : Server * list packet :=
  match nonempty username with
  | Some u =>
      if PyDict.mem u (clients s) then
        let s' := with_clients s (PyDict.del u (clients s)) in
        (s', broadcast_user_list s')
      else (s, [])
  | None => (s, [])
  end.

(** *** The UDP relays *)

Definition startswith (prefix data : bytes) : bool :=
  bool_decide (take (length prefix) data = prefix).

Fixpoint index_of (b : N) (data : bytes) : option nat :=
  match data with
  | [] => None
  | x :: r => if decide (x = b) then Some 0%nat else S <$> index_of b r
  end.

(** [data.find(bytes([b]), start)], with [None] for [-1]. *)
Definition find_byte (b : N) (start : nat) (data : bytes) : option nat :=
  (fun i => (start + i)%nat) <$> index_of b (drop start data).

(** [s.split(sep)] for a one-character separator. *)
Fixpoint py_split (sep : N) (s : pystr) : list pystr :=
  match s with
  | [] => [[]]
  | c :: r =>
      if decide (c = sep) then [] :: py_split sep r
      else
        match py_split sep r with
        | p :: ps => (c :: p) :: ps
        | [] => [[c]]
        end
  end.

(** [next((u for u, a in table.items() if a == addr), None)] *)
Definition reverse_lookup (source : addr) (table : list (pystr * addr)) : option pystr :=
  fst <$> find (fun ua : pystr * addr => bool_decide (ua.2 = source)) table.

(** [data[1:null_idx]] and [data[null_idx+1:]] *)
Definition tagged_name (data : bytes) (null_idx : nat) : bytes :=
  take (null_idx - 1) (drop 1 data).
Definition tagged_payload (data : bytes) (null_idx : nat) : bytes :=
  drop (null_idx + 1) data.

(** One turn of a relay loop.  [udp_audio_relay] and [udp_video_relay] have
    the same body up to the socket, the endpoint table, the size passed to
    [recvfrom] and the two tag bytes.  [recvfrom(bufsize)] hands over at most
    [bufsize] bytes of a datagram.  Every exception is swallowed by
    [except Exception: pass]. *)
Definition udp_relay (bufsize : N) (group_tag private_tag : N)
    (calls : list (pystr * list (option pystr))) (table : list (pystr * addr))
    (packet : bytes) (source : addr) : list (pystr * addr) * list datagram :=
  let data := take (N.to_nat bufsize) packet in
  if startswith (str "REG:") data then
    match Utf8.decode data with
    | Some text =>
        match py_split 58 text !! 1%nat with
        | Some username => (PyDict.set username source table, [])
        | None => (table, [])
        end
    | None => (table, [])
    end
  else if startswith [group_tag] data then
    match find_byte 0 1 data with
    | Some null_idx =>
        match Utf8.decode (tagged_name data null_idx) with
        | Some room =>
            let payload := tagged_payload data null_idx in
            match PyDict.get room calls with
            | Some roster =>
                match nonempty (reverse_lookup source table) with
                | Some sender =>
                    (table,
                     omap (fun participant : option pystr =>
                             if bool_decide (participant <> Some sender) then
                               match participant with
                               | Some p =>
                                   match PyDict.get p table with
                                   | Some a => Some (payload, a)
                                   | None => None
                                   end
                               | None => None
                               end
                             else None) roster)
                | None => (table, [])
                end
            | None => (table, [])
            end
        | None => (table, [])
        end
    | None => (table, [])
    end
  else if startswith [private_tag] data then
    match find_byte 0 1 data with
    | Some null_idx =>
        match Utf8.decode (tagged_name data null_idx) with
        | Some target =>
            let payload := tagged_payload data null_idx in
            match PyDict.get target table with
            | Some a => (table, [(payload, a)])
            | None => (table, [])
            end
        | None => (table, [])
        end
    | None => (table, [])
    end
  else (table, []).

(** Tags: [G]/[A] on the audio port, [H]/[V] on the video port. *)
Definition udp_audio_relay (s : Server) (packet : bytes) (source : addr)
    : Server * list datagram :=
  let '(table, out) :=
    udp_relay 4096 71 65 (group_calls s) (udp_audio_clients s) packet source in
  (with_udp_audio_clients s table, out).

Definition udp_video_relay (s : Server) (packet : bytes) (source : addr)
    : Server * list datagram :=
  let '(table, out) :=
    udp_relay 60000 72 86 (group_calls s) (udp_video_clients s) packet source in
  (with_udp_video_clients s table, out).

(** ** The running server

    One thread per accepted connection, each with its local variable
    [username]; the two relay loops; the store, which outlives a restart.
    Handlers run one at a time: a step is a whole turn of one loop. *)

Record World := {
  srv : Server;
  threads : gmap sock (option pystr);
  next_sock : sock }.

Inductive input :=
| Accept
| Receive (conn : sock) (received : option request) (now : Z)
| AudioDatagram (packet : bytes) (source : addr)
| VideoDatagram (packet : bytes) (source : addr).

Inductive output :=
| ToClient (p : packet)
| AudioOut (d : datagram)
| VideoOut (d : datagram).

Definition new_server (users : list user_row) (messages : list message_row)
    (groups : list group_row) : Server :=
  {| db_users := users; db_messages := messages; db_groups := groups;
     clients := []; udp_audio_clients := []; udp_video_clients := [];
     group_calls := [] |}.

Definition initial : World :=
  {| srv := new_server [] [] []; threads := ∅; next_sock := 0%nat |}.

(** A turn of [handle_client] for the connection [conn].  [received] is
    what [receive_json] returned; [None] and the empty object both end the
    loop, and so does an exception of the body. *)
Definition handle_client (w : World) (conn : sock) (received : option request)
    (now : Z) : World * list packet :=
  match threads w !! conn with
  | None => (w, [])
  | Some username =>
      match received with
      | Some ((_ :: _) as msg) =>
          let '(username', o) := dispatch (srv w) conn username msg now in
          match raised o with
          | None =>
              ({| srv := st o; threads := <[conn := username']> (threads w);
                  next_sock := next_sock w |}, sent o)
          | Some _ =>
              let '(s', out) := disconnect (st o) username' in
              ({| srv := s'; threads := delete conn (threads w);
                  next_sock := next_sock w |}, sent o ++ out)
          end
      | _ =>
          let '(s', out) := disconnect (srv w) username in
          ({| srv := s'; threads := delete conn (threads w);
              next_sock := next_sock w |}, out)
      end
  end.

Definition step (w : World) (i : input) : World * list output :=
  match i with
  | Accept =>
      ({| srv := srv w; threads := <[next_sock w := None]> (threads w);
          next_sock := S (next_sock w) |}, [])
  | Receive conn received now =>
      let '(w', out) := handle_client w conn received now in
      (w', map ToClient out)
  | AudioDatagram packet source =>
      let '(s', out) := udp_audio_relay (srv w) packet source in
      ({| srv := s'; threads := threads w; next_sock := next_sock w |},
       map AudioOut out)
  | VideoDatagram packet source =>
      let '(s', out) := udp_video_relay (srv w) packet source in
      ({| srv := s'; threads := threads w; next_sock := next_sock w |},
       map VideoOut out)
  end.

(** The process is started again on the same database file: the store is
    kept, everything in memory starts empty. *)
Definition restart (w : World) : World :=
  {| srv := new_server (db_users (srv w)) (db_messages (srv w)) (db_groups (srv w));
     threads := ∅; next_sock := next_sock w |}.

Definition run (w : World) (inputs : list input) : World :=
  foldl (fun w i => (step w i).1) w inputs.

Inductive reachable : World -> Prop :=
| reachable_initial : reachable initial
| reachable_step w i : reachable w -> reachable (step w i).1
| reachable_restart w : reachable w -> reachable (restart w).

End handlers.

(** ** A reference implementation of [PyLib]

    A self-delimiting ASCII notation for lists of optional strings stands in
    for JSON, and the digest is transparent.  It shows that the interface can
    be met and lets the model run on concrete requests. *)

Module Reference.

Fixpoint enc_pos (p : positive) : pystr :=
  match p with
  | xH => str "c"
  | xO q => str "a" ++ enc_pos q
  | xI q => str "b" ++ enc_pos q
  end.

Definition enc_char (c : N) : pystr :=
  match c with
  | N0 => str "0"
  | Npos p => enc_pos p
  end.

Definition enc_item (x : option pystr) : pystr :=
  match x with
  | None => str "n"
  | Some s => [34] ++ flat_map enc_char s ++ [34]
  end.

Definition dumps (l : list (option pystr)) : pystr :=
  str "[" ++ flat_map enc_item l ++ str "]".

Inductive state :=
| Items (items : list (option pystr))
| InStr (items : list (option pystr)) (cur : pystr)
| InChar (items : list (option pystr)) (cur : pystr) (k : positive -> positive).

Fixpoint scan (st : state) (cs : pystr) : option (list (option pystr)) :=
  match cs with
  | [] => None
  | c :: r =>
      match st with
      | Items items =>
          if c =? 93 then match r with [] => Some items | _ => None end
          else if c =? 110 then scan (Items (items ++ [None])) r
          else if c =? 34 then scan (InStr items []) r
          else None
      | InStr items cur =>
          if c =? 34 then scan (Items (items ++ [Some cur])) r
          else if c =? 48 then scan (InStr items (cur ++ [0])) r
          else if c =? 99 then scan (InStr items (cur ++ [1])) r
          else if c =? 97 then scan (InChar items cur xO) r
          else if c =? 98 then scan (InChar items cur xI) r
          else None
      | InChar items cur k =>
          if c =? 99 then scan (InStr items (cur ++ [Npos (k xH)])) r
          else if c =? 97 then scan (InChar items cur (fun p => k (xO p))) r
          else if c =? 98 then scan (InChar items cur (fun p => k (xI p))) r
          else None
      end
  end.

Definition loads (cs : pystr) : option (list (option pystr)) :=
  match cs with
  | c :: r => if c =? 91 then scan (Items []) r else None
  | [] => None
  end.

Lemma scan_enc_pos p k items cur r :
  scan (InChar items cur k) (enc_pos p ++ r) =
  scan (InStr items (cur ++ [Npos (k p)])) r.
Proof.
  revert k. induction p as [q IH|q IH|]; intros k; cbn.
  - apply (IH (fun p => k (xI p))).
  - apply (IH (fun p => k (xO p))).
  - reflexivity.
Qed.

Lemma scan_enc_char c items cur r :
  scan (InStr items cur) (enc_char c ++ r) = scan (InStr items (cur ++ [c])) r.
Proof.
  destruct c as [|[q|q|]]; cbn; try reflexivity; apply scan_enc_pos.
Qed.

Lemma scan_enc_chars s items cur r :
  scan (InStr items cur) (flat_map enc_char s ++ r) = scan (InStr items (cur ++ s)) r.
Proof.
  revert cur. induction s as [|c s IH]; intros cur; cbn [flat_map].
  - by rewrite app_nil_r.
  - rewrite <- app_assoc, scan_enc_char, IH. by rewrite <- app_assoc.
Qed.

Lemma scan_enc_item x items r :
  scan (Items items) (enc_item x ++ r) = scan (Items (items ++ [x])) r.
Proof.
  destruct x as [s|]; [|reflexivity].
  unfold enc_item. cbn. rewrite <- app_assoc, scan_enc_chars. reflexivity.
Qed.

Lemma scan_enc_items l items r :
  scan (Items items) (flat_map enc_item l ++ r) = scan (Items (items ++ l)) r.
Proof.
  revert items. induction l as [|x l IH]; intros items; cbn [flat_map].
  - by rewrite app_nil_r.
  - rewrite <- app_assoc, scan_enc_item, IH. by rewrite <- app_assoc.
Qed.

Lemma loads_dumps l : loads (dumps l) = Some l.
Proof.
  unfold dumps. cbn. rewrite scan_enc_items. reflexivity.
Qed.

Lemma enc_pos_ascii p : is_ascii (enc_pos p).
Proof.
  induction p; cbn; repeat constructor; done.
Qed.

Lemma dumps_ascii l : is_ascii (dumps l).
Proof.
  unfold dumps, is_ascii. rewrite !Forall_app. split; [repeat constructor|split].
  - apply Forall_flat_map. apply Forall_forall. intros [s|] _; cbn.
    + rewrite Forall_cons, Forall_app. split; [done|split; [|repeat constructor]].
      apply Forall_flat_map. apply Forall_forall. intros [|p] _; cbn.
      * repeat constructor.
      * apply enc_pos_ascii.
    + repeat constructor.
  - repeat constructor.
Qed.

Lemma dumps_nonempty l : dumps l <> [].
Proof. discriminate. Qed.

End Reference.

#[export] Instance reference_lib : PyLib := {|
  sha256_hexdigest := fun data => data;
  json_dumps := Reference.dumps;
  json_loads := Reference.loads;
  json_loads_dumps := Reference.loads_dumps;
  json_dumps_ascii := Reference.dumps_ascii;
  json_dumps_nonempty := Reference.dumps_nonempty |}.

(** ** Notions used in the statements *)

(** A request written with string literals. *)
Definition request_of (fields : list (string * string)) : request :=
  map (fun kv : string * string => (str kv.1, str kv.2)) fields.

(** The [type] field of a packet. *)
Definition packet_type (m : json) : option pystr :=
  match m with
  | JObj fields =>
      match PyDict.get (str "type") fields with
      | Some (JStr t) => Some t
      | _ => None
      end
  | _ => None
  end.

(** The datagrams the client builds: [f"REG:{username}".encode()] and
    [prefix + target.encode() + b'\0' + data]. *)
Definition registration (username : pystr) : bytes :=
  str "REG:" ++ Utf8.encode username.

Definition tagged (tag : N) (name : pystr) (payload : bytes) : bytes :=
  tag :: Utf8.encode name ++ 0 :: payload.

Section notions.
Context `{PyLib}.

(** The membership list of a group as the server reads it. *)
Definition members_of (s : Server) (group_name : pystr) : option (list (option pystr)) :=
  match find_group s group_name with
  | Some row =>
      match load_members (g_members row) with
      | Ok members => Some members
      | Raise _ => None
      end
  | None => None
  end.

(** A group row as [handle_group_create], [handle_group_join],
    [handle_group_leave] and [handle_group_add_user] write it. *)
Definition group_ok (r : group_row) : Prop :=
  g_name r <> [] /\
  exists members, NoDup members /\ dump_members members = Ok (Some (g_members r)).

(** A message row as [handle_private_message] and [handle_file_transfer]
    write it: the content column is the encryption of some text. *)
Definition message_ok (r : message_row) : Prop :=
  exists plaintext, encrypt_data plaintext = Ok (Some (m_content r)).

Record Inv (s : Server) : Prop := {
  inv_groups : Forall group_ok (db_groups s);
  inv_messages : Forall message_ok (db_messages s);
  inv_clients : NoDup (PyDict.keys (clients s)) }.

(** The registries in memory are the same in [s] and [s']. *)
Definition same_registries (s s' : Server) : Prop :=
  clients s' = clients s /\
  udp_audio_clients s' = udp_audio_clients s /\
  udp_video_clients s' = udp_video_clients s.

(** Every roster of [calls] is a prefix of the roster of the same room in
    [calls']. *)
Definition rosters_grow (calls calls' : list (pystr * list (option pystr))) : Prop :=
  forall room roster,
    PyDict.get room calls = Some roster ->
    exists more, PyDict.get room calls' = Some (roster ++ more).

End notions.


(** ** Two runs of the server, used to evaluate the model

    In the first, alice, bob and carol sign up and log in on the connections
    0, 1 and 2; alice creates the group "team" with PIN "1234" and bob joins
    it. *)

Definition team_scenario : list input :=
  [Accept; Accept; Accept;
   Receive 0 (Some (request_of [("type", "signup"); ("username", "alice"); ("password", "a")])) 1;
   Receive 1 (Some (request_of [("type", "signup"); ("username", "bob"); ("password", "b")])) 2;
   Receive 2 (Some (request_of [("type", "signup"); ("username", "carol"); ("password", "c")])) 3;
   Receive 0 (Some (request_of [("type", "login"); ("username", "alice"); ("password", "a")])) 4;
   Receive 1 (Some (request_of [("type", "login"); ("username", "bob"); ("password", "b")])) 5;
   Receive 2 (Some (request_of [("type", "login"); ("username", "carol"); ("password", "c")])) 6;
   Receive 0 (Some (request_of [("type", "group_create"); ("room_name", "team"); ("pin", "1234")])) 7;
   Receive 1 (Some (request_of [("type", "group_join"); ("room_name", "team"); ("pin", "1234")])) 8].

Definition team_world : World := run initial team_scenario.



(** ** Lemmas on base64 *)

Lemma list_ind3 {A} (P : list A -> Prop) :
  P [] -> (forall a, P [a]) -> (forall a b, P [a; b]) ->
  (forall a b c l, P l -> P (a :: b :: c :: l)) ->
  forall l, P l.
Proof.
  intros H0 H1 H2 H3.
  fix IH 1. intros [|a [|b [|c l]]].
  - exact H0.
  - apply H1.
  - apply H2.
  - apply H3, IH.
Qed.

Lemma val_of_char_of n : n < 64 -> Base64.val_of (Base64.char_of n) = Some n.
Proof.
  intros Hn. unfold Base64.val_of, Base64.char_of.
  repeat case_match; f_equal; lia.
Qed.

Lemma char_of_not_pad n : n < 64 -> (Base64.char_of n =? Base64.pad) = false.
Proof.
  intros Hn. unfold Base64.char_of, Base64.pad.
  repeat case_match; lia.
Qed.


Lemma b64decode_b64encode bs :
  is_bytes bs -> Base64.b64decode (Base64.b64encode bs) = Some bs.
Proof.
  unfold is_bytes.
  induction bs as [|a|a b|a b c l IH] using list_ind3; intros Hb.
  - reflexivity.
  - apply Forall_cons in Hb as [Ha _].
    cbn [Base64.b64encode Base64.b64decode].
    rewrite !val_of_char_of by lia.
    rewrite N.eqb_refl. cbn [andb]. do 2 f_equal. lia.
  - apply Forall_cons in Hb as [Ha Hb]. apply Forall_cons in Hb as [Hb _].
    cbn [Base64.b64encode Base64.b64decode].
    rewrite !val_of_char_of by lia.
    rewrite char_of_not_pad by lia.
    rewrite N.eqb_refl, andb_false_l.
    do 2 f_equal; [lia|f_equal; lia].
  - apply Forall_cons in Hb as [Ha Hb]. apply Forall_cons in Hb as [Hb Hc].
    apply Forall_cons in Hc as [Hc Hl].
    cbn [Base64.b64encode Base64.b64decode].
    rewrite !val_of_char_of by lia.
    rewrite !char_of_not_pad by lia. cbn [andb].
    rewrite IH by done.
    do 2 f_equal; [lia|f_equal; [lia|f_equal; lia]].
Qed.

Lemma b64encode_nil_inv bs : Base64.b64encode bs = [] -> bs = [].
Proof. destruct bs as [|a [|b [|c l]]]; done. Qed.

(** The encoder on the test vectors of RFC 4648, section 10. *)
Example b64encode_foobar :
  map Base64.b64encode [str "f"; str "fo"; str "foo"; str "foob"; str "fooba"; str "foobar"]
  = [str "Zg=="; str "Zm8="; str "Zm9v"; str "Zm9vYg=="; str "Zm9vYmE="; str "Zm9vYmFy"].
Proof. reflexivity. Qed.

Example b64decode_foobar :
  map Base64.b64decode [str "Zg=="; str "Zm8="; str "Zm9v"; str "Zm9vYmE="; str "Zg="]
  = [Some (str "f"); Some (str "fo"); Some (str "foo"); Some (str "fooba"); None].
Proof. reflexivity. Qed.

(** [encrypt_data("hi")] is ["Oww="]: [h ^ S = 0x3B], [i ^ e = 0x0C]. *)
Example encrypt_data_hi : encrypt_data (str "hi") = Ok (Some (str "Oww=")).
Proof. reflexivity. Qed.

Example encrypt_data_euro : encrypt_data [8364] = Raise ValueError.
Proof. reflexivity. Qed.

Example decrypt_data_short : decrypt_data (Some (str "A")) = Some (str "[Error]").
Proof. reflexivity. Qed.

(** ** Lemmas on the XOR layer *)

Lemma key_at_ascii i : key_at i < 128.
Proof.
  unfold key_at.
  assert (Hlt : (i mod length ENCRYPTION_KEY < 13)%nat)
    by (apply Nat.mod_upper_bound; discriminate).
  revert Hlt. generalize (i mod length ENCRYPTION_KEY)%nat. intros k Hk.
  do 13 (destruct k as [|k]; [vm_compute; reflexivity|]). lia.
Qed.

Lemma lxor_below a b n : a < 2 ^ n -> b < 2 ^ n -> N.lxor a b < 2 ^ n.
Proof.
  intros Ha Hb.
  destruct (N.eq_dec (N.lxor a b) 0) as [->|Hne].
  { apply N.neq_0_lt_0, N.pow_nonzero. lia. }
  apply N.log2_lt_pow2; [lia|].
  eapply N.le_lt_trans; [apply N.log2_lxor|].
  apply N.max_lub_lt.
  - destruct (N.eq_dec a 0) as [->|Ha0].
    + rewrite N.lxor_0_l in Hne. cbn. apply N.log2_lt_pow2 in Hb; lia.
    + apply N.log2_lt_pow2; lia.
  - destruct (N.eq_dec b 0) as [->|Hb0].
    + rewrite N.lxor_0_r in Hne. cbn. apply N.log2_lt_pow2 in Ha; lia.
    + apply N.log2_lt_pow2; lia.
Qed.

Lemma xor_key_involutive i c : xor_key i (xor_key i c) = c.
Proof.
  unfold xor_key.
  by rewrite N.lxor_assoc, N.lxor_nilpotent, N.lxor_0_r.
Qed.

Lemma xor_key_ascii i c : c < 128 -> xor_key i c < 128.
Proof.
  intros Hc. unfold xor_key.
  apply (lxor_below c (key_at i) 7); [done|apply key_at_ascii].
Qed.

Lemma imap_xor_key_involutive l : imap xor_key (imap xor_key l) = l.
Proof.
  apply list_eq. intros i. rewrite !list_lookup_imap.
  destruct (l !! i) as [c|]; cbn; [|done].
  by rewrite xor_key_involutive.
Qed.


Lemma is_ascii_xor_fits s : is_ascii s -> xor_fits s.
Proof.
  intros Hs i c Hi.
  unfold is_ascii in Hs. rewrite Forall_lookup in Hs.
  pose proof (Hs i c Hi) as Hc. cbn beta in Hc.
  pose proof (xor_key_ascii i c Hc). lia.
Qed.

Lemma xor_fits_is_bytes s : xor_fits s <-> is_bytes (imap xor_key s).
Proof.
  unfold is_bytes. rewrite Forall_lookup. split.
  - intros Hs i b. rewrite list_lookup_imap.
    destruct (s !! i) as [c|] eqn:Hc; cbn; [|done].
    intros [= <-]. eauto.
  - intros Hs i c Hc. apply (Hs i). by rewrite list_lookup_imap, Hc.
Qed.

Lemma py_bytes_ok l : is_bytes l -> py_bytes l = Ok l.
Proof.
  intros Hl. unfold py_bytes.
  replace (forallb (fun b => b <? 256) l) with true; [done|].
  symmetry. apply forallb_forall.
  intros b Hb%list_elem_of_In. apply N.ltb_lt.
  unfold is_bytes in Hl. rewrite Forall_forall in Hl. auto.
Qed.

Lemma py_bytes_raise l : ~ is_bytes l -> py_bytes l = Raise ValueError.
Proof.
  intros Hl. unfold py_bytes.
  destruct (forallb _ l) eqn:E; [|done].
  exfalso. apply Hl. unfold is_bytes. rewrite Forall_forall.
  intros b Hb%list_elem_of_In.
  rewrite forallb_forall in E. apply N.ltb_lt. auto.
Qed.

Lemma encrypt_data_ok s :
  s <> [] -> xor_fits s ->
  encrypt_data s = Ok (Some (Base64.b64encode (imap xor_key s))).
Proof.
  intros Hne Hs. unfold encrypt_data.
  destruct s as [|c s]; [done|]. cbn [falsy].
  rewrite py_bytes_ok by (by apply xor_fits_is_bytes). done.
Qed.

Lemma encrypt_data_raise s :
  ~ xor_fits s -> encrypt_data s = Raise ValueError.
Proof.
  intros Hs. unfold encrypt_data.
  destruct s as [|c s].
  { exfalso. apply Hs. intros i c. by rewrite lookup_nil. }
  cbn [falsy]. rewrite py_bytes_raise; [done|].
  by rewrite <- xor_fits_is_bytes.
Qed.

Lemma decrypt_data_b64encode s :
  s <> [] -> xor_fits s ->
  decrypt_data (Some (Base64.b64encode (imap xor_key s))) = Some s.
Proof.
  intros Hne Hs. unfold decrypt_data.
  destruct (Base64.b64encode (imap xor_key s)) as [|e0 e] eqn:E.
  { apply b64encode_nil_inv in E. destruct s; done. }
  cbn [falsy py_or]. rewrite <- E.
  rewrite b64decode_b64encode by (by apply xor_fits_is_bytes).
  by rewrite imap_xor_key_involutive.
Qed.



(** U+0041, U+00E9, U+20AC and U+1F600 in UTF-8. *)
Example utf8_encode_samples :
  Utf8.encode [65; 233; 8364; 128512]
  = [65; 195; 169; 226; 130; 172; 240; 159; 152; 128].
Proof. reflexivity. Qed.

Example utf8_decode_rejects :
  map Utf8.decode [[192; 128]; [237; 160; 128]; [244; 144; 128; 128]; [226; 130]]
  = [None; None; None; None].
Proof. reflexivity. Qed.

Lemma utf8_decode_encode_char c r :
  Utf8.is_scalar c ->
  Utf8.decode (Utf8.encode_char c ++ r) =
  match Utf8.decode r with Some s => Some (c :: s) | None => None end.
Proof.
  intros Hc. unfold Utf8.is_scalar in Hc. unfold Utf8.encode_char.
  destruct (c <? 0x80) eqn:E1.
  { cbn [app Utf8.decode]. by rewrite E1. }
  destruct (c <? 0x800) eqn:E2.
  { cbn [app Utf8.decode]. unfold Utf8.is_cont.
    replace (0xC0 + c / 64 <? 0x80) with false by lia.
    replace (0xC0 + c / 64 <? 0xC2) with false by lia.
    replace (0xC0 + c / 64 <? 0xE0) with true by lia.
    replace ((0x80 <=? 0x80 + c mod 64) && (0x80 + c mod 64 <? 0xC0)) with true by lia.
    replace ((0xC0 + c / 64 - 0xC0) * 64 + (0x80 + c mod 64 - 0x80)) with c by lia.
    done. }
  destruct (c <? 0x10000) eqn:E3.
  { cbn [app Utf8.decode]. unfold Utf8.is_cont.
    replace (0xE0 + c / 4096 <? 0x80) with false by lia.
    replace (0xE0 + c / 4096 <? 0xC2) with false by lia.
    replace (0xE0 + c / 4096 <? 0xE0) with false by lia.
    replace (0xE0 + c / 4096 <? 0xF0) with true by lia.
    cbv zeta.
    replace ((0xE0 + c / 4096 - 0xE0) * 4096
             + (0x80 + (c / 64) mod 64 - 0x80) * 64
             + (0x80 + c mod 64 - 0x80)) with c by lia.
    replace ((0x80 <=? 0x80 + (c / 64) mod 64) && (0x80 + (c / 64) mod 64 <? 0xC0))
      with true by lia.
    replace ((0x80 <=? 0x80 + c mod 64) && (0x80 + c mod 64 <? 0xC0)) with true by lia.
    replace (0x800 <=? c) with true by lia.
    replace ((0xD800 <=? c) && (c <? 0xE000)) with false by lia.
    done. }
  cbn [app Utf8.decode]. unfold Utf8.is_cont.
  replace (0xF0 + c / 262144 <? 0x80) with false by lia.
  replace (0xF0 + c / 262144 <? 0xC2) with false by lia.
  replace (0xF0 + c / 262144 <? 0xE0) with false by lia.
  replace (0xF0 + c / 262144 <? 0xF0) with false by lia.
  replace (0xF0 + c / 262144 <? 0xF5) with true by lia.
  cbv zeta.
  replace ((0xF0 + c / 262144 - 0xF0) * 262144
           + (0x80 + (c / 4096) mod 64 - 0x80) * 4096
           + (0x80 + (c / 64) mod 64 - 0x80) * 64
           + (0x80 + c mod 64 - 0x80)) with c by lia.
  replace ((0x80 <=? 0x80 + (c / 4096) mod 64) && (0x80 + (c / 4096) mod 64 <? 0xC0))
    with true by lia.
  replace ((0x80 <=? 0x80 + (c / 64) mod 64) && (0x80 + (c / 64) mod 64 <? 0xC0))
    with true by lia.
  replace ((0x80 <=? 0x80 + c mod 64) && (0x80 + c mod 64 <? 0xC0)) with true by lia.
  replace (0x10000 <=? c) with true by lia.
  replace (c <? 0x110000) with true by lia.
  done.
Qed.

Lemma utf8_decode_encode_app s r :
  is_text s ->
  Utf8.decode (Utf8.encode s ++ r) =
  match Utf8.decode r with Some t => Some (s ++ t) | None => None end.
Proof.
  induction 1 as [|c s Hc Hs IH]; cbn [Utf8.encode flat_map app].
  - by destruct (Utf8.decode r).
  - fold (Utf8.encode s). rewrite <- app_assoc, utf8_decode_encode_char by done.
    rewrite IH. by destruct (Utf8.decode r).
Qed.

Lemma utf8_decode_encode s : is_text s -> Utf8.decode (Utf8.encode s) = Some s.
Proof.
  intros Hs. rewrite <- (app_nil_r (Utf8.encode s)).
  rewrite utf8_decode_encode_app by done. cbn. by rewrite app_nil_r.
Qed.

(** A NUL byte occurs in the encoding only where U+0000 occurs in the text. *)
Lemma utf8_encode_char_no_nul c : c <> 0 -> Forall (fun b => b <> 0) (Utf8.encode_char c).
Proof.
  intros Hc. unfold Utf8.encode_char.
  repeat case_match; repeat constructor; lia.
Qed.

Lemma utf8_encode_no_nul s :
  Forall (fun c => c <> 0) s -> Forall (fun b => b <> 0) (Utf8.encode s).
Proof.
  induction 1 as [|c s Hc Hs IH]; cbn [Utf8.encode flat_map]; [constructor|].
  apply Forall_app. split; [by apply utf8_encode_char_no_nul|done].
Qed.

(** ** Lemmas on dictionaries *)

Section dict_lemmas.
Context {V : Type}.
Implicit Types (d : list (pystr * V)) (k : pystr) (v : V).

Lemma dict_get_set_eq k v d : PyDict.get k (PyDict.set k v d) = Some v.
Proof.
  induction d as [|[k' v'] d IH]; cbn.
  - by rewrite decide_True.
  - destruct (decide (k = k')) as [->|Hne]; cbn.
    + by rewrite decide_True.
    + by rewrite decide_False.
Qed.

Lemma dict_get_set_ne k k' v d :
  k <> k' -> PyDict.get k' (PyDict.set k v d) = PyDict.get k' d.
Proof.
  intros Hne. induction d as [|[k0 v0] d IH]; cbn.
  - by rewrite decide_False.
  - destruct (decide (k = k0)) as [->|Hne0]; cbn.
    + by rewrite !decide_False.
    + by rewrite IH.
Qed.

Lemma dict_keys_set k v d :
  PyDict.keys (PyDict.set k v d) =
  if PyDict.mem k d then PyDict.keys d else PyDict.keys d ++ [k].
Proof.
  unfold PyDict.mem, PyDict.keys.
  induction d as [|[k' v'] d IH]; cbn; [done|].
  destruct (decide (k = k')) as [->|Hne]; cbn; [done|].
  rewrite IH. by destruct (PyDict.get k d).
Qed.

Lemma dict_get_None k d : PyDict.get k d = None <-> k ∉ PyDict.keys d.
Proof.
  unfold PyDict.keys. induction d as [|[k' v'] d IH]; cbn.
  - split; [intros _; apply not_elem_of_nil|done].
  - rewrite not_elem_of_cons. destruct (decide (k = k')) as [->|Hne].
    + split; [done|]. intros [? _]. done.
    + rewrite IH. tauto.
Qed.

Lemma dict_get_Some_elem k v d : PyDict.get k d = Some v -> (k, v) ∈ d.
Proof.
  induction d as [|[k' v'] d IH]; cbn; [done|].
  destruct (decide (k = k')) as [->|Hne].
  - intros [= ->]. apply list_elem_of_here.
  - intros Hg. apply list_elem_of_further. auto.
Qed.

Lemma dict_keys_set_NoDup k v d :
  NoDup (PyDict.keys d) -> NoDup (PyDict.keys (PyDict.set k v d)).
Proof.
  intros Hd. rewrite dict_keys_set. unfold PyDict.mem.
  destruct (PyDict.get k d) eqn:E; [done|].
  apply NoDup_app. split; [done|]. split; [|apply NoDup_singleton].
  intros x Hx ->%list_elem_of_singleton.
  by apply dict_get_None in E.
Qed.

Lemma dict_keys_del_subseteq k d : PyDict.keys (PyDict.del k d) ⊆ PyDict.keys d.
Proof.
  unfold PyDict.keys. induction d as [|[k' v'] d IH]; cbn; [done|].
  destruct (decide (k = k')) as [->|Hne]; cbn.
  - intros x Hx. by apply list_elem_of_further.
  - intros x [->|Hx]%elem_of_cons.
    + apply list_elem_of_here.
    + apply list_elem_of_further. by apply IH.
Qed.

Lemma dict_keys_del_NoDup k d :
  NoDup (PyDict.keys d) -> NoDup (PyDict.keys (PyDict.del k d)).
Proof.
  unfold PyDict.keys. induction d as [|[k' v'] d IH]; cbn; [done|].
  intros [Hk Hd]%NoDup_cons.
  destruct (decide (k = k')) as [->|Hne]; cbn; [done|].
  apply NoDup_cons. split; [|auto].
  intros Hin. apply Hk. by apply (dict_keys_del_subseteq k d).
Qed.

End dict_lemmas.

(** ** Lemmas on the store *)

Lemma encrypt_data_Some_inv p e :
  encrypt_data p = Ok (Some e) ->
  p <> [] /\ xor_fits p /\ e = Base64.b64encode (imap xor_key p).
Proof.
  unfold encrypt_data. destruct p as [|c p]; [done|]. cbn [falsy].
  unfold py_bytes. destruct (forallb _ _) eqn:E; [|done].
  cbn [rbind]. intros [= <-]. split; [done|]. split; [|done].
  apply xor_fits_is_bytes. unfold is_bytes. rewrite Forall_forall.
  intros b Hb%list_elem_of_In. rewrite forallb_forall in E.
  apply N.ltb_lt. auto.
Qed.

Lemma decrypt_data_encrypt_data p e :
  encrypt_data p = Ok (Some e) -> decrypt_data (Some e) = Some p.
Proof.
  intros (Hne & Hfit & ->)%encrypt_data_Some_inv.
  by apply decrypt_data_b64encode.
Qed.

Lemma nonempty_Some s : s <> [] -> nonempty (Some s) = Some s.
Proof. by destruct s. Qed.

Lemma nonempty_Some_inv x s : nonempty x = Some s -> x = Some s /\ s <> [].
Proof. destruct x as [[|c r]|]; cbn; [done| |done]. by intros [= <-]. Qed.

Section store_lemmas.
Context `{PyLib}.

Lemma dump_members_ok l :
  dump_members l = Ok (Some (Base64.b64encode (imap xor_key (json_dumps l)))).
Proof.
  unfold dump_members. apply encrypt_data_ok.
  - apply json_dumps_nonempty.
  - apply is_ascii_xor_fits, json_dumps_ascii.
Qed.

Lemma load_members_dump l e :
  dump_members l = Ok (Some e) -> load_members e = Ok l.
Proof.
  intros He. unfold load_members.
  rewrite (decrypt_data_encrypt_data _ _ He).
  pose proof (json_dumps_nonempty l) as Hne.
  destruct (json_dumps l) as [|c r] eqn:E; [done|].
  cbn [py_or]. rewrite <- E. by rewrite json_loads_dumps.
Qed.

Lemma dump_members_inj l1 l2 e :
  dump_members l1 = Ok (Some e) -> dump_members l2 = Ok (Some e) -> l1 = l2.
Proof.
  intros H1%load_members_dump H2%load_members_dump. congruence.
Qed.


Lemma find_Some_elem {A} (f : A -> bool) l x : find f l = Some x -> x ∈ l /\ f x = true.
Proof.
  intros [Hin Hf]%find_some. split; [by apply list_elem_of_In|done].
Qed.

Lemma find_group_Some s name row :
  find_group s name = Some row -> row ∈ db_groups s /\ g_name row = name.
Proof.
  intros [Hin Hf]%find_Some_elem. split; [done|].
  by apply bool_decide_eq_true in Hf.
Qed.


Lemma find_app_Some {A} (f : A -> bool) l1 l2 x :
  find f l1 = Some x -> find f (l1 ++ l2) = Some x.
Proof.
  induction l1 as [|a l1 IH]; cbn; [done|].
  destruct (f a); [done|]. auto.
Qed.

Lemma find_group_set_members s name e name' :
  find_group (with_groups s (map (set_members name e) (db_groups s))) name' =
  set_members name e <$> find_group s name'.
Proof.
  unfold find_group. cbn [db_groups with_groups].
  induction (db_groups s) as [|r l IH]; cbn; [done|].
  replace (bool_decide (g_name (set_members name e r) = name'))
    with (bool_decide (g_name r = name')).
  - destruct (bool_decide (g_name r = name')); [done|]. apply IH.
  - unfold set_members. by destruct (bool_decide (g_name r = name)).
Qed.

Lemma insert_message_Ok s sender receiver content msg_type now s' :
  insert_message s sender receiver content msg_type now = Ok s' ->
  exists sd c, sender = Some sd /\ content = Some c /\
    s' = with_messages s (db_messages s ++
           [{| m_sender := sd; m_receiver := receiver; m_content := c;
               m_msg_type := msg_type; m_timestamp := now |}]).
Proof.
  unfold insert_message. destruct sender as [sd|], content as [c|]; try done.
  intros [= <-]. eauto.
Qed.

Lemma insert_group_Ok s name pin_hash creator members now s' :
  insert_group s name pin_hash creator members now = Ok s' ->
  exists c m, creator = Some c /\ members = Some m /\ find_group s name = None /\
    s' = with_groups s (db_groups s ++
           [{| g_name := name; g_pin_hash := pin_hash; g_creator := c;
               g_members := m; g_created_at := now |}]).
Proof.
  unfold insert_group.
  destruct (find_group s name), creator as [c|], members as [m|]; try done.
  intros [= <-]. eauto 10.
Qed.

Lemma insert_user_Ok s username pwd_hash s' :
  insert_user s username pwd_hash = Ok s' ->
  s' = with_users s (db_users s ++
         [{| u_username := username; u_password_hash := pwd_hash |}]).
Proof.
  unfold insert_user. destruct (find_user s username); [done|]. by intros [= <-].
Qed.

Lemma update_dump_Ok s name l s' :
  rbind (dump_members l) (update_group_members s name) = Ok s' ->
  exists e, dump_members l = Ok (Some e) /\
    s' = with_groups s (map (set_members name e) (db_groups s)).
Proof.
  rewrite dump_members_ok. cbn. intros [= <-]. eauto.
Qed.


(** *** The invariant under the updates of the store and the registries *)

Lemma Inv_with_users s x : Inv s -> Inv (with_users s x).
Proof. intros [? ? ?]. by constructor. Qed.

Lemma Inv_with_messages s row :
  message_ok row -> Inv s -> Inv (with_messages s (db_messages s ++ [row])).
Proof.
  intros Hrow [? ? ?]. constructor; cbn; [done| |done].
  apply Forall_app. split; [done|]. by constructor.
Qed.

Lemma Inv_with_groups_snoc s row :
  group_ok row -> Inv s -> Inv (with_groups s (db_groups s ++ [row])).
Proof.
  intros Hrow [? ? ?]. constructor; cbn; [|done|done].
  apply Forall_app. split; [done|]. by constructor.
Qed.

Lemma Inv_with_groups_set_members s name l e :
  NoDup l -> dump_members l = Ok (Some e) -> Inv s ->
  Inv (with_groups s (map (set_members name e) (db_groups s))).
Proof.
  intros Hl He [Hg ? ?]. constructor; cbn; [|done|done].
  apply Forall_map. eapply Forall_impl; [exact Hg|].
  intros r [Hn Hm]. unfold set_members.
  destruct (bool_decide (g_name r = name)); [|by split].
  split; cbn; [done|]. eauto.
Qed.

Lemma Inv_with_clients s x :
  NoDup (PyDict.keys x) -> Inv s -> Inv (with_clients s x).
Proof. intros Hx [? ? ?]. by constructor. Qed.

Lemma Inv_with_group_calls s x : Inv s -> Inv (with_group_calls s x).
Proof. intros [? ? ?]. by constructor. Qed.

Lemma Inv_with_udp_audio_clients s x : Inv s -> Inv (with_udp_audio_clients s x).
Proof. intros [? ? ?]. by constructor. Qed.

Lemma Inv_with_udp_video_clients s x : Inv s -> Inv (with_udp_video_clients s x).
Proof. intros [? ? ?]. by constructor. Qed.

Lemma Inv_new_server s :
  Inv s -> Inv (new_server (db_users s) (db_messages s) (db_groups s)).
Proof. intros [? ? ?]. constructor; cbn; [done|done|]. apply NoDup_nil_2. Qed.

End store_lemmas.

(** ** What the handlers leave unchanged *)

Section handler_lemmas.
Context `{PyLib}.

(** [quiet s s']: the invariant carries over and nothing in memory changed. *)
Definition quiet (s s' : Server) : Prop :=
  (Inv s -> Inv s') /\ same_registries s s' /\ group_calls s' = group_calls s.

Lemma quiet_refl s : quiet s s.
Proof. split; [done|by repeat split]. Qed.

Lemma quiet_with_users s x : quiet s (with_users s x).
Proof. split; [apply Inv_with_users|by repeat split]. Qed.

Lemma quiet_with_messages s row :
  message_ok row -> quiet s (with_messages s (db_messages s ++ [row])).
Proof. split; [by apply Inv_with_messages|by repeat split]. Qed.

Lemma quiet_with_groups_snoc s row :
  group_ok row -> quiet s (with_groups s (db_groups s ++ [row])).
Proof. split; [by apply Inv_with_groups_snoc|by repeat split]. Qed.

Lemma quiet_set_members s name l e :
  (Inv s -> NoDup l) -> dump_members l = Ok (Some e) ->
  quiet s (with_groups s (map (set_members name e) (db_groups s))).
Proof.
  intros Hl He. split; [|by repeat split].
  intros Hi. eapply Inv_with_groups_set_members; eauto.
Qed.

Lemma Inv_members_NoDup s name row members :
  Inv s -> find_group s name = Some row ->
  load_members (g_members row) = Ok members -> NoDup members.
Proof.
  intros Hi Hf Hl. destruct (find_group_Some _ _ _ Hf) as [Hin _].
  pose proof (inv_groups _ Hi) as Hg. rewrite Forall_forall in Hg.
  destruct (Hg row Hin) as [_ (members' & Hnd & Hm%load_members_dump)].
  congruence.
Qed.

Lemma NoDup_snoc {A} (l : list A) x : NoDup l -> x ∉ l -> NoDup (l ++ [x]).
Proof.
  intros Hl Hx. apply NoDup_app. split; [done|].
  split; [|apply NoDup_singleton].
  by intros y Hy ->%list_elem_of_singleton.
Qed.

Lemma list_remove_first_subseteq x l : list_remove_first x l ⊆ l.
Proof.
  induction l as [|y l IH]; cbn; [done|].
  destruct (decide (x = y)).
  - intros z Hz. by apply list_elem_of_further.
  - intros z [->|Hz]%elem_of_cons.
    + apply list_elem_of_here.
    + apply list_elem_of_further. by apply IH.
Qed.

Lemma NoDup_remove_first x l : NoDup l -> NoDup (list_remove_first x l).
Proof.
  induction 1 as [|y l Hy Hl IH]; cbn; [constructor|].
  destruct (decide (x = y)); [done|].
  constructor; [|done]. intros Hin. apply Hy.
  by apply (list_remove_first_subseteq x l).
Qed.

Ltac store_inv :=
  repeat match goal with
  | H : insert_message _ _ _ _ _ _ = Ok _ |- _ =>
      apply insert_message_Ok in H as (? & ? & ? & ? & ?)
  | H : insert_group _ _ _ _ _ _ = Ok _ |- _ =>
      apply insert_group_Ok in H as (? & ? & ? & ? & ? & ?)
  | H : insert_user _ _ _ = Ok _ |- _ => apply insert_user_Ok in H
  | H : rbind (dump_members _) (update_group_members _ _) = Ok _ |- _ =>
      apply update_dump_Ok in H as (? & ? & ?)
  | H : nonempty _ = Some _ |- _ => apply nonempty_Some_inv in H as [? ?]
  end; simplify_eq.

Ltac quiet_leaf :=
  cbn [st returns raises];
  first
  [ apply quiet_refl
  | apply quiet_with_users
  | apply quiet_with_messages; eexists; eassumption
  | eapply quiet_set_members;
    [ intros ?;
      first
      [ apply NoDup_snoc;
        [ eapply Inv_members_NoDup; eassumption
        | match goal with
          | Hb : bool_decide (_ ∈ _) = false |- _ =>
              apply bool_decide_eq_false in Hb; exact Hb
          end ]
      | apply NoDup_remove_first; eapply Inv_members_NoDup; eassumption ]
    | eassumption ]
  | apply quiet_with_groups_snoc; split; cbn;
    [ assumption
    | eexists; split; [apply NoDup_singleton|eassumption] ] ].

Lemma handle_signup_quiet s conn msg : quiet s (st (handle_signup s conn msg)).
Proof. unfold handle_signup. repeat case_match; store_inv; quiet_leaf. Qed.

Lemma handle_private_message_quiet s conn sender msg now :
  quiet s (st (handle_private_message s conn sender msg now)).
Proof. unfold handle_private_message. repeat case_match; store_inv; quiet_leaf. Qed.

Lemma handle_file_transfer_quiet s conn sender msg now :
  quiet s (st (handle_file_transfer s conn sender msg now)).
Proof. unfold handle_file_transfer. repeat case_match; store_inv; quiet_leaf. Qed.

Lemma send_message_history_quiet s conn username partner :
  quiet s (st (send_message_history s conn username partner)).
Proof. unfold send_message_history. repeat case_match; quiet_leaf. Qed.

Lemma relay_call_signal_quiet s sender msg :
  quiet s (st (relay_call_signal s sender msg)).
Proof. unfold relay_call_signal. repeat case_match; quiet_leaf. Qed.

Lemma handle_group_create_quiet s conn creator msg now :
  quiet s (st (handle_group_create s conn creator msg now)).
Proof. unfold handle_group_create. repeat case_match; store_inv; quiet_leaf. Qed.

Lemma handle_group_add_user_quiet s conn sender msg :
  quiet s (st (handle_group_add_user s conn sender msg)).
Proof. unfold handle_group_add_user. repeat case_match; store_inv; quiet_leaf. Qed.

Lemma handle_group_join_quiet s conn username msg :
  quiet s (st (handle_group_join s conn username msg)).
Proof. unfold handle_group_join. repeat case_match; store_inv; quiet_leaf. Qed.

Lemma handle_group_leave_quiet s conn username msg :
  quiet s (st (handle_group_leave s conn username msg)).
Proof. unfold handle_group_leave. repeat case_match; store_inv; quiet_leaf. Qed.

Lemma forward_to_group_same s sender group_name message :
  st (forward_to_group s sender group_name message) = s.
Proof. unfold forward_to_group. by repeat case_match. Qed.

Lemma handle_group_message_same s conn sender msg :
  st (handle_group_message s conn sender msg) = s.
Proof.
  unfold handle_group_message. repeat case_match; try done; apply forward_to_group_same.
Qed.

Lemma handle_group_file_same s conn sender msg :
  st (handle_group_file s conn sender msg) = s.
Proof.
  unfold handle_group_file. repeat case_match; try done; apply forward_to_group_same.
Qed.

Lemma handle_group_call_same s conn sender msg :
  st (handle_group_call s conn sender msg) = s.
Proof.
  unfold handle_group_call. repeat case_match; try done; apply forward_to_group_same.
Qed.

Lemma handle_group_voice_same s conn sender msg :
  st (handle_group_voice s conn sender msg) = s.
Proof.
  unfold handle_group_voice. repeat case_match; try done; apply forward_to_group_same.
Qed.

Lemma handle_group_call_accept_st s conn username msg :
  st (handle_group_call_accept s conn username msg) = s \/
  exists group_name,
    st (handle_group_call_accept s conn username msg) =
    with_group_calls s (accept_into group_name username (group_calls s)).
Proof.
  unfold handle_group_call_accept. repeat case_match; cbn; eauto.
Qed.

End handler_lemmas.

(** ** The invariant along a run *)

Section loop_lemmas.
Context `{PyLib}.

Lemma is_type_inv msg t : is_type msg t = true -> field msg "type" = Some (str t).
Proof. unfold is_type. apply bool_decide_eq_true. Qed.

Lemma rosters_grow_refl calls : rosters_grow calls calls.
Proof. intros room roster Hr. exists []. by rewrite app_nil_r. Qed.

Lemma accept_into_grows group_name username calls :
  rosters_grow calls (accept_into group_name username calls).
Proof.
  intros room roster Hr. unfold accept_into, PyDict.mem.
  destruct (PyDict.get group_name calls) as [r0|] eqn:Hg.
  - rewrite Hg.
    destruct (bool_decide (username ∈ r0)).
    + exists []. by rewrite app_nil_r.
    + destruct (decide (group_name = room)) as [->|Hne].
      * rewrite dict_get_set_eq. exists [username]. congruence.
      * rewrite dict_get_set_ne by done. exists []. by rewrite app_nil_r.
  - assert (group_name <> room) as Hne by congruence.
    rewrite dict_get_set_eq.
    destruct (bool_decide (username ∈ [])).
    + rewrite dict_get_set_ne by done. exists []. by rewrite app_nil_r.
    + rewrite !dict_get_set_ne by done. exists []. by rewrite app_nil_r.
Qed.


(** The state and the roster tables after one turn of the loop body. *)
Lemma dispatch_keeps s conn username msg now :
  let o := (dispatch s conn username msg now).2 in
  (Inv s -> Inv (st o)) /\
  rosters_grow (group_calls s) (group_calls (st o)) /\
  udp_audio_clients (st o) = udp_audio_clients s /\
  udp_video_clients (st o) = udp_video_clients s.
Proof.
  assert (Hq : forall s', quiet s s' ->
    (Inv s -> Inv s') /\ rosters_grow (group_calls s) (group_calls s') /\
    udp_audio_clients s' = udp_audio_clients s /\
    udp_video_clients s' = udp_video_clients s).
  { intros s' (Hi & (_ & Ha & Hv) & Hc). rewrite Hc.
    split; [done|]. split; [apply rosters_grow_refl|done]. }
  cbv zeta. unfold dispatch.
  repeat match goal with
         | |- context [if ?b then _ else _] => destruct b
         end; cbn [snd];
    try (apply Hq;
         first [ apply handle_signup_quiet | apply handle_private_message_quiet
               | apply handle_file_transfer_quiet | apply send_message_history_quiet
               | apply relay_call_signal_quiet | apply handle_group_create_quiet
               | apply handle_group_join_quiet | apply handle_group_leave_quiet
               | apply handle_group_add_user_quiet | apply quiet_refl ]);
    try (rewrite ?handle_group_message_same, ?handle_group_file_same,
           ?handle_group_call_same, ?handle_group_voice_same;
         apply Hq, quiet_refl).
  - (* login *)
    destruct (handle_login s conn msg) as [username' out1].
    destruct (nonempty username') as [u|]; cbn [snd].
    + assert (Hs : forall o : outcome,
        st o = with_clients s (PyDict.set u conn (clients s)) ->
        (Inv s -> Inv (st o)) /\
        rosters_grow (group_calls s) (group_calls (st o)) /\
        udp_audio_clients (st o) = udp_audio_clients s /\
        udp_video_clients (st o) = udp_video_clients s).
      { intros o ->. split; [|split; [apply rosters_grow_refl|done]].
        intros Hi. apply Inv_with_clients; [|done].
        apply dict_keys_set_NoDup, Hi. }
      destruct (send_groups_list _ conn username'); cbn [snd]; by apply Hs.
    + apply Hq, quiet_refl.
  - (* group_call_accept *)
    destruct (handle_group_call_accept_st s conn username msg) as [->|[g ->]].
    + apply Hq, quiet_refl.
    + split; [apply Inv_with_group_calls|].
      split; [apply accept_into_grows|done].
Qed.

Lemma disconnect_keeps s username :
  let s' := (disconnect s username).1 in
  (Inv s -> Inv s') /\ group_calls s' = group_calls s /\
  udp_audio_clients s' = udp_audio_clients s /\
  udp_video_clients s' = udp_video_clients s.
Proof.
  cbv zeta. unfold disconnect.
  destruct (nonempty username) as [u|]; [|done].
  destruct (PyDict.mem u (clients s)); [|done].
  cbn. split; [|done]. intros Hi. apply Inv_with_clients; [|done].
  apply dict_keys_del_NoDup, Hi.
Qed.

Lemma handle_client_keeps w conn received now :
  let w' := (handle_client w conn received now).1 in
  (Inv (srv w) -> Inv (srv w')) /\
  rosters_grow (group_calls (srv w)) (group_calls (srv w')).
Proof.
  cbv zeta. unfold handle_client.
  destruct (threads w !! conn) as [username|]; cbn [fst];
    [|split; [done|apply rosters_grow_refl]].
  assert (Hd : forall u,
    (Inv (srv w) -> Inv (disconnect (srv w) u).1) /\
    rosters_grow (group_calls (srv w)) (group_calls (disconnect (srv w) u).1)).
  { intros u. destruct (disconnect_keeps (srv w) u) as (Hi & Hc & _).
    split; [done|]. rewrite Hc. apply rosters_grow_refl. }
  destruct received as [[|f msg]|].
  - destruct (disconnect (srv w) username) as [s' out] eqn:E.
    specialize (Hd username). rewrite E in Hd. exact Hd.
  - pose proof (dispatch_keeps (srv w) conn username (f :: msg) now) as Hk.
    destruct (dispatch (srv w) conn username (f :: msg) now) as [username' o].
    cbv zeta in Hk. cbn [snd] in Hk. destruct Hk as (Hi & Hg & _).
    destruct (raised o).
    + pose proof (disconnect_keeps (st o) username') as Hk.
      destruct (disconnect (st o) username') as [s' out].
      cbv zeta in Hk. cbn [fst] in Hk. destruct Hk as (Hi' & Hc & _).
      cbn [fst srv]. split; [auto|]. by rewrite Hc.
    + cbn [fst srv]. auto.
  - destruct (disconnect (srv w) username) as [s' out] eqn:E.
    specialize (Hd username). rewrite E in Hd. exact Hd.
Qed.

Lemma step_keeps w i :
  (Inv (srv w) -> Inv (srv (step w i).1)) /\
  rosters_grow (group_calls (srv w)) (group_calls (srv (step w i).1)).
Proof.
  destruct i as [|conn received now|packet source|packet source]; cbn [step].
  - split; [done|apply rosters_grow_refl].
  - pose proof (handle_client_keeps w conn received now) as Hk.
    destruct (handle_client w conn received now) as [w' out]. exact Hk.
  - unfold udp_audio_relay.
    destruct (udp_relay _ _ _ _ _ _ _) as [table out]. cbn.
    split; [apply Inv_with_udp_audio_clients|apply rosters_grow_refl].
  - unfold udp_video_relay.
    destruct (udp_relay _ _ _ _ _ _ _) as [table out]. cbn.
    split; [apply Inv_with_udp_video_clients|apply rosters_grow_refl].
Qed.

Lemma Inv_initial : Inv (srv initial).
Proof. constructor; cbn; [constructor|constructor|apply NoDup_nil_2]. Qed.

Lemma reachable_Inv w : reachable w -> Inv (srv w).
Proof.
  induction 1 as [|w i Hw IH|w Hw IH].
  - apply Inv_initial.
  - by apply step_keeps.
  - by apply Inv_new_server.
Qed.

Lemma reachable_run w inputs : reachable w -> reachable (run w inputs).
Proof.
  revert w. induction inputs as [|i inputs IH]; intros w Hw; cbn; [done|].
  apply IH. by constructor.
Qed.

End loop_lemmas.

Lemma team_world_reachable : reachable team_world.
Proof. apply reachable_run, reachable_initial. Qed.



(** ** Reading the group table *)

Section group_lemmas.
Context `{PyLib}.

Lemma Inv_find_group s name row :
  Inv s -> find_group s name = Some row ->
  g_name row = name /\ name <> [] /\
  exists members, NoDup members /\ load_members (g_members row) = Ok members /\
                  members_of s name = Some members.
Proof.
  intros Hi Hf. destruct (find_group_Some _ _ _ Hf) as [Hin Hname].
  pose proof (inv_groups _ Hi) as Hg. rewrite Forall_forall in Hg.
  destruct (Hg row Hin) as [Hne (members & Hnd & Hm%load_members_dump)].
  split; [done|]. split; [congruence|].
  exists members. split; [done|]. split; [done|].
  unfold members_of. by rewrite Hf, Hm.
Qed.


Lemma members_of_set_members_ne s name e name' :
  name' <> name ->
  members_of (with_groups s (map (set_members name e) (db_groups s))) name'
  = members_of s name'.
Proof.
  intros Hne. unfold members_of. rewrite find_group_set_members.
  destruct (find_group s name') as [row|] eqn:Hf; [|done].
  cbn [fmap option_fmap option_map].
  destruct (find_group_Some _ _ _ Hf) as [_ Hname].
  unfold set_members. rewrite bool_decide_eq_false_2 by congruence. done.
Qed.



Lemma broadcast_to_group_Ok s group_name message exclude :
  Inv s ->
  broadcast_to_group s group_name message exclude =
  Ok (match members_of s group_name with
      | Some members => group_sends s members message exclude
      | None => []
      end).
Proof.
  intros Hi. unfold broadcast_to_group, members_of.
  destruct (find_group s group_name) as [row|] eqn:Hf; [|done].
  destruct (Inv_find_group _ _ _ Hi Hf) as (_ & _ & members & _ & Hl & _).
  by rewrite Hl.
Qed.

Lemma is_group_member_Ok s username group_name :
  Inv s ->
  is_group_member s username group_name =
  Ok (match members_of s group_name with
      | Some members => bool_decide (username ∈ members)
      | None => false
      end).
Proof.
  intros Hi. unfold is_group_member, members_of.
  destruct (find_group s group_name) as [row|] eqn:Hf; [|done].
  destruct (Inv_find_group _ _ _ Hi Hf) as (_ & _ & members & _ & Hl & _).
  by rewrite Hl.
Qed.

(** Who receives a broadcast: the members with an entry in the registry,
    the excluded one apart. *)
Lemma elem_of_group_sends s members message exclude c m :
  (c, m) ∈ group_sends s members message exclude <->
  m = message /\
  exists member, Some member ∈ members /\ Some member <> exclude /\
                 PyDict.get member (clients s) = Some c.
Proof.
  unfold group_sends. rewrite list_elem_of_omap. split.
  - intros ([member|] & Hin & Hsend); [|by destruct (bool_decide _)].
    destruct (bool_decide (Some member <> exclude)) eqn:E; [|done].
    apply bool_decide_eq_true in E.
    destruct (PyDict.get member (clients s)) as [c'|] eqn:Hg; [|done].
    injection Hsend as <- <-. eauto.
  - intros (-> & member & Hin & Hne & Hg).
    exists (Some member). split; [done|].
    by rewrite bool_decide_eq_true_2, Hg.
Qed.

End group_lemmas.

(** ** Lemmas on the history query *)

Global Instance timestamp_le_trans : Transitive timestamp_le.
Proof. intros x y z. unfold timestamp_le. lia. Qed.

Global Instance timestamp_le_total : Total timestamp_le.
Proof. intros x y. unfold timestamp_le. lia. Qed.






(** ** Lemmas on the relay loop *)

Lemma startswith_app prefix rest : startswith prefix (prefix ++ rest) = true.
Proof.
  unfold startswith. apply bool_decide_eq_true_2.
  by rewrite take_app_length.
Qed.

Lemma startswith_cons_ne a b r prefix :
  a <> b -> startswith (a :: prefix) (b :: r) = false.
Proof.
  intros Hne. unfold startswith. apply bool_decide_eq_false_2.
  cbn. congruence.
Qed.

Lemma py_split_no_sep sep s : sep ∉ s -> py_split sep s = [s].
Proof.
  induction s as [|c s IH]; cbn; [done|].
  intros [Hc Hs]%not_elem_of_cons.
  rewrite decide_False by done. by rewrite IH.
Qed.

Lemma py_split_registration u :
  58 ∉ u -> py_split 58 (str "REG:" ++ u) !! 1%nat = Some u.
Proof.
  intros Hu. cbn [str app].
  change (N_of_ascii "R") with 82. change (N_of_ascii "E") with 69.
  change (N_of_ascii "G") with 71. change (N_of_ascii ":") with 58.
  cbn [py_split]. rewrite !decide_False by done. rewrite decide_True by done.
  by rewrite py_split_no_sep.
Qed.

Lemma utf8_decode_registration u :
  is_text u -> Utf8.decode (registration u) = Some (str "REG:" ++ u).
Proof.
  intros Hu. unfold registration.
  change (str "REG:") with (Utf8.encode (str "REG:")).
  rewrite utf8_decode_encode_app, utf8_decode_encode
    by (done || (repeat constructor; left; by vm_compute)).
  done.
Qed.

Lemma index_of_app_notin b l r :
  b ∉ l -> index_of b (l ++ b :: r) = Some (length l).
Proof.
  induction l as [|x l IH]; cbn.
  - intros _. by rewrite decide_True.
  - intros [Hx Hl]%not_elem_of_cons.
    rewrite decide_False by done. by rewrite IH.
Qed.

Lemma utf8_encode_notin_nul u : 0 ∉ u -> 0 ∉ Utf8.encode u.
Proof.
  intros Hu Hin.
  assert (Hall : Forall (fun b => b <> 0) (Utf8.encode u)).
  { apply utf8_encode_no_nul. apply Forall_forall. intros c Hc ->. done. }
  rewrite Forall_forall in Hall. by apply (Hall 0).
Qed.

Lemma udp_relay_register bufsize group_tag private_tag calls table u e :
  is_text u -> 58 ∉ u ->
  N.of_nat (length (registration u)) <= bufsize ->
  udp_relay bufsize group_tag private_tag calls table (registration u) e
  = (PyDict.set u e table, []).
Proof.
  intros Hu Hsep Hlen. unfold udp_relay.
  rewrite take_ge by lia.
  replace (startswith (str "REG:") (registration u)) with true
    by (symmetry; apply startswith_app).
  rewrite utf8_decode_registration by done.
  by rewrite py_split_registration.
Qed.

Lemma find_byte_tagged tag name payload :
  0 ∉ name ->
  find_byte 0 1 (tagged tag name payload) = Some (S (length (Utf8.encode name))).
Proof.
  intros Hnul. unfold find_byte, tagged. cbn [drop]. rewrite drop_0.
  by rewrite index_of_app_notin by (by apply utf8_encode_notin_nul).
Qed.

Lemma tagged_name_eq tag name payload :
  tagged_name (tagged tag name payload) (S (length (Utf8.encode name)))
  = Utf8.encode name.
Proof.
  unfold tagged_name, tagged. cbn [drop]. rewrite drop_0.
  replace (S (length (Utf8.encode name)) - 1)%nat
    with (length (Utf8.encode name)) by lia.
  by rewrite take_app_length.
Qed.

Lemma tagged_payload_eq tag name payload :
  tagged_payload (tagged tag name payload) (S (length (Utf8.encode name)))
  = payload.
Proof.
  unfold tagged_payload, tagged.
  replace (S (length (Utf8.encode name)) + 1)%nat
    with (S (S (length (Utf8.encode name)))) by lia.
  cbn [drop].
  change (S (length (Utf8.encode name))) with (1 + length (Utf8.encode name))%nat.
  rewrite Nat.add_comm, <- drop_drop, drop_app_length. done.
Qed.

Lemma udp_relay_private bufsize group_tag private_tag calls table u payload source :
  is_text u -> 0 ∉ u ->
  private_tag <> group_tag -> private_tag <> 82 ->
  N.of_nat (length (tagged private_tag u payload)) <= bufsize ->
  udp_relay bufsize group_tag private_tag calls table
    (tagged private_tag u payload) source
  = (table,
     match PyDict.get u table with
     | Some a => [(payload, a)]
     | None => []
     end).
Proof.
  intros Hu Hnul Hg Hr Hlen. unfold udp_relay.
  rewrite take_ge by lia.
  rewrite find_byte_tagged, tagged_name_eq, tagged_payload_eq by done.
  rewrite utf8_decode_encode by done.
  unfold tagged.
  change (str "REG:") with [82; 69; 71; 58].
  rewrite (startswith_cons_ne 82 private_tag) by done.
  rewrite (startswith_cons_ne group_tag private_tag) by done.
  replace (startswith [private_tag] (private_tag :: Utf8.encode u ++ 0 :: payload))
    with true by (symmetry; apply (startswith_app [private_tag])).
  by destruct (PyDict.get u table).
Qed.

Lemma with_udp_audio_clients_same s : with_udp_audio_clients s (udp_audio_clients s) = s.
Proof. by destruct s. Qed.

Lemma with_udp_video_clients_same s : with_udp_video_clients s (udp_video_clients s) = s.
Proof. by destruct s. Qed.

(** * The claims of the specification *)

Section history.
Context `{PyLib}.


End history.



Section single_session.
Context `{PyLib}.



End single_session.


Section private_message.
Context `{PyLib}.

(** What [handle_private_message] does with content that [encrypt_data]
    accepts: one row is appended, and the text goes to the receiver's socket
    when the registry has one. *)
Lemma handle_private_message_stores s conn A msg now B content :
  field msg "to" = Some B -> field msg "content" = Some content ->
  B <> [] -> content <> [] -> xor_fits content ->
  exists e,
    encrypt_data content = Ok (Some e) /\
    let row := {| m_sender := A; m_receiver := B; m_content := e;
                  m_msg_type := str "text"; m_timestamp := now |} in
    handle_private_message s conn (Some A) msg now =
    returns (with_messages s (db_messages s ++ [row]))
      (match PyDict.get B (clients s) with
       | Some c =>
           [(c, JObj [(str "type", JStr (str "private")); (str "from", JStr A);
                      (str "content", JStr content)])]
       | None => []
       end).
Proof.
  intros HB Hc HBne Hcne Hfit. eexists. split; [by apply encrypt_data_ok|].
  cbv zeta. unfold handle_private_message.
  rewrite HB, Hc, !nonempty_Some by done.
  by rewrite encrypt_data_ok by done.
Qed.

(** What it does with content that [encrypt_data] rejects. *)
Lemma handle_private_message_raises s conn sender msg now B content :
  field msg "to" = Some B -> field msg "content" = Some content ->
  B <> [] -> content <> [] -> ~ xor_fits content ->
  handle_private_message s conn sender msg now = raises s [] ValueError.
Proof.
  intros HB Hc HBne Hcne Hfit. unfold handle_private_message.
  rewrite HB, Hc, !nonempty_Some by done.
  by rewrite encrypt_data_raise.
Qed.

(** Nothing is queued for a user who logs in later: whatever the outcome
    of a [login] request, the packets of that turn are an [auth_result],
    user lists and group lists. *)
Lemma login_packet_types s conn username msg now :
  is_type msg "login" = true ->
  Forall (fun p : packet =>
            packet_type p.2 ∈ [Some (str "auth_result"); Some (str "list");
                               Some (str "all_groups_list"); Some (str "my_groups_list")])
         (sent (dispatch s conn username msg now).2).
Proof.
  intros Hty. pose proof (is_type_inv _ _ Hty) as Hfield.
  unfold dispatch.
  replace (is_type msg "signup") with false
    by (unfold is_type; rewrite Hfield; by vm_compute).
  rewrite Hty.
  assert (Hl : Forall (fun p : packet => packet_type p.2 = Some (str "auth_result"))
                 (handle_login s conn msg).2).
  { unfold handle_login. repeat case_match; by repeat constructor. }
  assert (Hb : forall s', Forall (fun p : packet => packet_type p.2 = Some (str "list"))
                            (broadcast_user_list s')).
  { intros s'. unfold broadcast_user_list. apply Forall_forall.
    intros p (c & <- & _)%list_elem_of_In%in_map_iff. done. }
  assert (Hg : forall s' c u l, send_groups_list s' c u = Ok l ->
            Forall (fun p : packet =>
                      packet_type p.2 ∈ [Some (str "all_groups_list");
                                         Some (str "my_groups_list")]) l).
  { intros s' c u l. unfold send_groups_list.
    destruct (my_groups u (db_groups s')); [|done]. cbn. intros [= <-].
    repeat constructor. }
  destruct (handle_login s conn msg) as [username' out1]. cbn [snd] in Hl.
  assert (Hl' : Forall (fun p : packet =>
            packet_type p.2 ∈ [Some (str "auth_result"); Some (str "list");
                               Some (str "all_groups_list"); Some (str "my_groups_list")])
            out1).
  { eapply Forall_impl; [exact Hl|]. intros p ->. apply list_elem_of_here. }
  destruct (nonempty username') as [u|]; [|done].
  set (s' := with_clients s (PyDict.set u conn (clients s))).
  assert (Hb' : Forall (fun p : packet =>
            packet_type p.2 ∈ [Some (str "auth_result"); Some (str "list");
                               Some (str "all_groups_list"); Some (str "my_groups_list")])
            (broadcast_user_list s')).
  { eapply Forall_impl; [apply Hb|]. intros p ->.
    apply list_elem_of_further, list_elem_of_here. }
  destruct (send_groups_list s' conn username') as [l|e] eqn:E; cbn [snd sent returns raises].
  - rewrite !Forall_app. split; [done|]. split; [done|].
    eapply Forall_impl; [by eapply Hg|]. intros p Hp.
    by do 2 apply list_elem_of_further.
  - rewrite Forall_app. by split.
Qed.

End private_message.

(** C3, at the failing input.  Alice, logged in on connection 0, sends bob
    the one-character text U+20AC (the euro sign).  [encrypt_data] raises
    [ValueError] on it, so [handle_private_message] appends no record and
    forwards nothing although bob is connected (the only packets of the turn
    are the user lists sent out when a connection ends); the exception ends
    alice's loop: her thread is gone and her registry entry is deleted. *)
Theorem private_message_wide_character :
  let msg := [(str "type", str "private"); (str "to", str "bob");
              (str "content", [8364])] in
  let s := srv team_world in
  let r := handle_client team_world 0%nat (Some msg) 9 in
  PyDict.get (str "alice") (clients s) = Some 0%nat /\
  PyDict.get (str "bob") (clients s) = Some 1%nat /\
  handle_private_message s 0%nat (Some (str "alice")) msg 9 = raises s [] ValueError /\
  db_messages (srv r.1) = db_messages s /\
  map (fun p : packet => (p.1, packet_type p.2)) r.2
    = [(1%nat, Some (str "list")); (2%nat, Some (str "list"))] /\
  threads r.1 !! 0%nat = None /\
  PyDict.get (str "alice") (clients (srv r.1)) = None.
Proof.
  cbv zeta.
  split; [by vm_compute|]. split; [by vm_compute|]. split; [by vm_compute|].
  split; [by vm_compute|]. split; [by vm_compute|]. split; by vm_compute.
Qed.

Section group_join.
Context `{PyLib}.



End group_join.



Section group_message.
Context `{PyLib}.

(** C5 (as amended).  In a reachable state, a [group_msg] with non-empty
    content from the logged-in user [S], a member of room [G]: the packets
    sent are one copy of the message for each member of [G] other than [S]
    that has an entry in the registry, in the order of the (duplicate-free)
    membership list, addressed to that member's socket; nothing is sent on
    behalf of [S]; and the server, with its message log, is left as it
    was.  A message with empty content changes nothing and is sent to
    nobody. *)
Theorem group_message_spec w conn S msg G content members :
  reachable w ->
  field msg "room_name" = Some G -> field msg "content" = Some content ->
  let s := srv w in
  let o := handle_group_message s conn (Some S) msg in
  let message := group_msg G (Some S) content in
  (content = [] -> o = returns s []) /\
  (content <> [] ->
  members_of s G = Some members -> Some S ∈ members ->
  NoDup members /\
  o = returns s (group_sends s members message (Some S)) /\
  (forall c m, (c, m) ∈ sent o <->
     m = message /\
     exists member, Some member ∈ members /\ member <> S /\
                    PyDict.get member (clients s) = Some c) /\
  db_messages (st o) = db_messages s).
Proof.
  intros Hw HG Hc. cbv zeta.
  pose proof (reachable_Inv w Hw) as Hi.
  set (s := srv w) in *.
  split.
  { intros ->. unfold handle_group_message. rewrite HG, Hc.
    by destruct (nonempty (Some G)). }
  intros Hcne Hm HS.
  assert (HGne : G <> []).
  { unfold members_of in Hm.
    destruct (find_group s G) as [row|] eqn:Hf; [|done].
    by destruct (Inv_find_group _ _ _ Hi Hf) as (_ & ? & _). }
  assert (Hnd : NoDup members).
  { unfold members_of in Hm.
    destruct (find_group s G) as [row|] eqn:Hf; [|done].
    destruct (load_members (g_members row)) as [l|] eqn:Hl; [|done].
    injection Hm as ->. by eapply Inv_members_NoDup. }
  assert (Ho : handle_group_message s conn (Some S) msg
               = returns s (group_sends s members (group_msg G (Some S) content) (Some S))).
  { unfold handle_group_message.
    rewrite HG, Hc, !nonempty_Some by done.
    unfold forward_to_group.
    rewrite is_group_member_Ok, Hm, bool_decide_eq_true_2 by done.
    by rewrite broadcast_to_group_Ok, Hm by done. }
  split; [done|]. split; [done|]. rewrite Ho. cbn [sent st returns].
  split; [|done].
  intros c m. rewrite elem_of_group_sends.
  split.
  - intros (-> & member & Hin & Hne & Hg). split; [done|].
    exists member. split; [done|]. split; [congruence|done].
  - intros (-> & member & Hin & Hne & Hg). split; [done|].
    exists member. split; [done|]. split; [congruence|done].
Qed.

End group_message.

Lemma group_message_spec_witness :
  handle_group_message (srv team_world) 0%nat (Some (str "alice"))
    (request_of [("type", "group_msg"); ("room_name", "team"); ("content", "hi")])
  = returns (srv team_world)
      [(1%nat, group_msg (str "team") (Some (str "alice")) (str "hi"))].
Proof.
  refine (eq_trans (proj1 (proj2 (proj2
    (group_message_spec team_world 0%nat (str "alice")
       (request_of [("type", "group_msg"); ("room_name", "team"); ("content", "hi")])
       (str "team") (str "hi") [Some (str "alice"); Some (str "bob")]
       team_world_reachable eq_refl eq_refl) _ _ _))) _).
  - discriminate.
  - by vm_compute.
  - apply list_elem_of_here.
  - by vm_compute.
Defined.

(** C5 as stated fails for empty content: alice is a member of "team", bob
    is another member and is connected, and nothing is delivered. *)
Lemma group_message_empty_content :
  let msg := request_of [("type", "group_msg"); ("room_name", "team"); ("content", "")] in
  let o := handle_group_message (srv team_world) 0%nat (Some (str "alice")) msg in
  members_of (srv team_world) (str "team")
    = Some [Some (str "alice"); Some (str "bob")] /\
  PyDict.get (str "bob") (clients (srv team_world)) = Some 1%nat /\
  sent o = [].
Proof. by vm_compute. Qed.

(** C6 (as amended).  For a user name [u] of Unicode scalar values that
    contains neither [:] nor U+0000, and datagrams that fit the receive
    buffer (4096 bytes on the audio port, 60000 on the video port):
    a registration [REG:u] from the endpoint [e] binds [u] to [e] in the
    relay's table, whatever was bound before, and sends nothing; a private
    datagram (tag [A] for audio, [V] for video, then [u], a NUL byte and the
    payload) leaves the tables as they are and is sent on, payload unchanged,
    to the endpoint the table holds for [u], so right after the
    registration to [e]; with no endpoint for [u] nothing is sent at all. *)
Theorem udp_relay_spec s u e payload source :
  is_text u -> 58 ∉ u -> 0 ∉ u ->
  (N.of_nat (length (registration u)) <= 4096 ->
   N.of_nat (length (tagged 65 u payload)) <= 4096 ->
   let r := udp_audio_relay s (registration u) e in
   PyDict.get u (udp_audio_clients r.1) = Some e /\ r.2 = [] /\
   udp_audio_relay r.1 (tagged 65 u payload) source = (r.1, [(payload, e)]) /\
   udp_audio_relay s (tagged 65 u payload) source =
     (s, match PyDict.get u (udp_audio_clients s) with
         | Some a => [(payload, a)]
         | None => []
         end)) /\
  (N.of_nat (length (registration u)) <= 60000 ->
   N.of_nat (length (tagged 86 u payload)) <= 60000 ->
   let r := udp_video_relay s (registration u) e in
   PyDict.get u (udp_video_clients r.1) = Some e /\ r.2 = [] /\
   udp_video_relay r.1 (tagged 86 u payload) source = (r.1, [(payload, e)]) /\
   udp_video_relay s (tagged 86 u payload) source =
     (s, match PyDict.get u (udp_video_clients s) with
         | Some a => [(payload, a)]
         | None => []
         end)).
Proof.
  intros Hu Hsep Hnul. split.
  - intros Hreg Htag. cbv zeta. unfold udp_audio_relay.
    rewrite udp_relay_register by done. cbn [fst snd].
    rewrite !udp_relay_private by done.
    cbn [udp_audio_clients with_udp_audio_clients].
    rewrite dict_get_set_eq.
    split; [done|]. split; [done|]. split.
    + reflexivity.
    + by rewrite with_udp_audio_clients_same.
  - intros Hreg Htag. cbv zeta. unfold udp_video_relay.
    rewrite udp_relay_register by done. cbn [fst snd].
    rewrite !udp_relay_private by done.
    cbn [udp_video_clients with_udp_video_clients].
    rewrite dict_get_set_eq.
    split; [done|]. split; [done|]. split.
    + reflexivity.
    + by rewrite with_udp_video_clients_same.
Qed.

Lemma udp_relay_spec_witness :
  udp_audio_relay
    (udp_audio_relay (srv team_world) (registration (str "alice")) (str "10.0.0.7", 40000)).1
    (tagged 65 (str "alice") [1; 0; 255]) (str "10.0.0.9", 40001)
  = ((udp_audio_relay (srv team_world) (registration (str "alice"))
        (str "10.0.0.7", 40000)).1,
     [([1; 0; 255], (str "10.0.0.7", 40000))]).
Proof.
  refine (proj1 (proj2 (proj2 (proj1
    (udp_relay_spec (srv team_world) (str "alice") (str "10.0.0.7", 40000)
       [1; 0; 255] (str "10.0.0.9", 40001) _ _ _) _ _)))).
  - repeat constructor; left; by vm_compute.
  - apply (bool_decide_eq_false_1 (58 ∈ str "alice")). by vm_compute.
  - apply (bool_decide_eq_false_1 (0 ∈ str "alice")). by vm_compute.
  - by vm_compute.
  - by vm_compute.
Defined.

(** C6 as stated fails in two ways.  A private datagram longer than the
    receive size is cut: of a payload of 5000 bytes sent to alice on the
    audio port, the first 4089 are forwarded.  And a name with a colon is
    registered under its part before the colon: after [REG:a:b] from [e] the
    table has no entry for "a:b" (the name "a" is bound instead), and a
    private datagram for "a:b" is dropped. *)
Lemma udp_relay_cut_and_colon :
  let e := (str "10.0.0.7", 40000) in
  let source := (str "10.0.0.9", 40001) in
  let payload := replicate 5000 7 in
  let r1 := udp_audio_relay (srv team_world) (registration (str "alice")) e in
  let r2 := udp_audio_relay (srv team_world) (registration (str "a:b")) e in
  (udp_audio_relay r1.1 (tagged 65 (str "alice") payload) source).2
    = [(replicate 4089 7, e)] /\
  PyDict.get (str "a:b") (udp_audio_clients r2.1) = None /\
  PyDict.get (str "a") (udp_audio_clients r2.1) = Some e /\
  (udp_audio_relay r2.1 (tagged 65 (str "a:b") [1; 0; 255]) source).2 = [].
Proof. by vm_compute. Qed.

Section group_add_user.
Context `{PyLib}.



End group_add_user.



Section group_call_accept.
Context `{PyLib}.





End group_call_accept.


Section group_create.
Context `{PyLib}.



End group_create.



(** C10.  A non-empty string whose characters, XORed with the repeating
    key, stay below 256 is recovered by [decrypt_data] from the output of
    [encrypt_data]; every non-empty ASCII string is such a string; and for
    the empty string [encrypt_data] returns [None], which [decrypt_data]
    maps to [None] and not back to the empty string. *)
Theorem encrypt_decrypt_roundtrip (s : pystr) :
  (s <> [] -> xor_fits s ->
     (exists e, encrypt_data s = Ok (Some e)) /\
     encrypt_then_decrypt s = Ok (Some s)) /\
  (is_ascii s -> xor_fits s) /\
  (s = [] ->
     encrypt_data s = Ok None /\
     encrypt_then_decrypt s = Ok None /\
     encrypt_then_decrypt s <> Ok (Some s)).
Proof.
  split; [|split].
  - intros Hne Hs. unfold encrypt_then_decrypt.
    rewrite encrypt_data_ok by done. cbn [rbind].
    split; [eauto|]. by rewrite decrypt_data_b64encode.
  - apply is_ascii_xor_fits.
  - intros ->. by vm_compute.
Qed.

Lemma encrypt_decrypt_roundtrip_witness :
  encrypt_then_decrypt (str "hello") = Ok (Some (str "hello")).
Proof.
  refine (proj2 (proj1 (encrypt_decrypt_roundtrip (str "hello")) _ _)).
  - discriminate.
  - apply is_ascii_xor_fits. unfold is_ascii. repeat constructor.
Defined.

